(** * Content versioning and restore engine

    Source: the [versions] module of the Convex backend (the second half
    of [convex/files.ts]).

    A shallow embedding of the version-control handlers
    [isEnabled], [setEnabled], [createVersion], [getVersionHistory],
    [getVersion], [restoreVersion], [cleanupOldVersions] and [getStats],
    together with the properties the specification states about them.

    Modelling conventions.
    - A table is the list of its documents in creation order, so that
      the implicit [_creationTime] tie-break of every index is the list
      order.  Document ids are drawn from one counter, [nextId].
    - Live posts and pages are documents addressed by their document id
      (the [contentId] string of a snapshot); [ctx.db.get] resolves the id
      alone, the [as Id<"posts">] / [as Id<"pages">] casts are erased.
    - A handler is a function from the database to either a thrown
      exception ([None]) or a result, the new database and the list of
      writes it issued, in program order.
    - [Date.now()] is an argument of the handler that reads it.
    - A JavaScript string is a [string]; one [ascii] stands for one code
      unit, which is what [length] and [slice] count. *)

From Stdlib Require Import ZArith NArith Ascii String List Lia Sorting Permutation.
From stdpp Require Import base option list gmap strings sorting pretty.

Local Open Scope string_scope.
Local Open Scope list_scope.
Local Open Scope nat_scope.

(** ** Data model *)

Inductive ContentType := Post | Page.
Inductive Source := Sync | Dashboard | Restore.

#[global] Instance ContentType_eq_dec : EqDecision ContentType.
Proof. solve_decision. Defined.
#[global] Instance Source_eq_dec : EqDecision Source.
Proof. solve_decision. Defined.

(** Document ids ([Id<"contentVersions">], [Id<"versionControlSettings">]). *)
Definition Id := N.

(** A row of [versionControlSettings].  Modelled from the spec: the
    table schema is not part of the sources; the setting is a keyed
    boolean. *)
Record SettingDoc := mkSetting {
  s_id : Id;
  key : string;
  value : bool
}.

(** The object handed to [ctx.db.insert("contentVersions", ...)]. *)
Record VersionFields := mkFields {
  contentType : ContentType;
  contentId : string;
  slug : string;
  title : string;
  content : string;
  description : option string;
  createdAt : Z;
  source : Source
}.

(** A row of [contentVersions]: the inserted fields and the assigned [_id]. *)
Record VersionDoc := mkVersion {
  v_id : Id;
  v_fields :> VersionFields
}.

(** A live post or page.  Modelled from the spec: the [posts] and [pages]
    schemas are not part of the sources; a live item has a title, a
    content, a description on the content types that have one, and the
    [lastSyncedAt] stamp.  [c_description] is [None] when the document has
    no [description] property; [c_rest] stands for every field the
    versioning code never names (slug, date, tags, ...). *)
Record ContentDoc := mkContent {
  c_title : string;
  c_content : string;
  c_description : option string;
  c_lastSyncedAt : option Z;
  c_rest : list (string * string)
}.

(** The object handed to [ctx.db.patch] on a live item; [p_description] is
    [None] when the patch object has no [description] key. *)
Record ContentPatch := mkPatch {
  p_title : string;
  p_content : string;
  p_description : option string;
  p_lastSyncedAt : Z
}.

Record DB := mkDB {
  versionControlSettings : list SettingDoc;
  contentVersions : list VersionDoc;
  liveContent : gmap string ContentDoc;
  nextId : Id
}.

Definition emptyDB : DB := mkDB [] [] ∅ 0%N.

(** ** Writes and their effect on the database *)

Inductive Write :=
| InsertSetting (d : SettingDoc)
| PatchSetting (id : Id) (v : bool)
| InsertVersion (d : VersionDoc)
| DeleteVersion (id : Id)
| PatchContent (cid : string) (p : ContentPatch).

Definition patch_setting (id : Id) (v : bool) (s : SettingDoc) : SettingDoc :=
  if bool_decide (s_id s = id) then mkSetting (s_id s) (key s) v else s.

Definition patch_content (p : ContentPatch) (c : ContentDoc) : ContentDoc :=
  {| c_title := p_title p;
     c_content := p_content p;
     c_description :=
       match p_description p with Some d => Some d | None => c_description c end;
     c_lastSyncedAt := Some (p_lastSyncedAt p);
     c_rest := c_rest c |}.

Definition has_setting (id : Id) (db : DB) : bool :=
  existsb (λ s, bool_decide (s_id s = id)) (versionControlSettings db).

Definition has_version (id : Id) (db : DB) : bool :=
  existsb (λ v, bool_decide (v_id v = id)) (contentVersions db).

(** [ctx.db.patch] and [ctx.db.delete] throw on an id that resolves to no
    document; an insert always succeeds and consumes the id it was given. *)
Definition apply_write (w : Write) (db : DB) : option DB :=
  match w with
  | InsertSetting d =>
      Some (mkDB (versionControlSettings db ++ [d]) (contentVersions db)
                 (liveContent db) (N.succ (nextId db)))
  | PatchSetting id v =>
      if has_setting id db
      then Some (mkDB (map (patch_setting id v) (versionControlSettings db))
                      (contentVersions db) (liveContent db) (nextId db))
      else None
  | InsertVersion d =>
      Some (mkDB (versionControlSettings db) (contentVersions db ++ [d])
                 (liveContent db) (N.succ (nextId db)))
  | DeleteVersion id =>
      if has_version id db
      then Some (mkDB (versionControlSettings db)
                      (List.filter (λ v, negb (bool_decide (v_id v = id)))
                                   (contentVersions db))
                      (liveContent db) (nextId db))
      else None
  | PatchContent cid p =>
      match liveContent db !! cid with
      | Some c => Some (mkDB (versionControlSettings db) (contentVersions db)
                             (<[cid := patch_content p c]> (liveContent db))
                             (nextId db))
      | None => None
      end
  end.

Fixpoint replay (ws : list Write) (db : DB) : option DB :=
  match ws with
  | [] => Some db
  | w :: ws' => match apply_write w db with
                | Some db' => replay ws' db'
                | None => None
                end
  end.

(** ** Handlers: database state, exceptions and the write log *)

Definition Handler (A : Type) : Type := DB → option (A * DB * list Write).

#[global] Instance Handler_ret : MRet Handler :=
  λ A a db, Some (a, db, []).

#[global] Instance Handler_bind : MBind Handler :=
  λ A B f m db,
    match m db with
    | Some (a, db1, w1) =>
        match f a db1 with
        | Some (b, db2, w2) => Some (b, db2, w1 ++ w2)
        | None => None
        end
    | None => None
    end.

(** A read of the database: no write, no exception. *)
Definition db_read {A} (f : DB → A) : Handler A :=
  λ db, Some (f db, db, []).

(** A single write, logged when it succeeds. *)
Definition db_write (w : Write) : Handler unit :=
  λ db, match apply_write w db with
        | Some db' => Some (tt, db', [w])
        | None => None
        end.

(** [await Promise.all(xs.map(f))], run in array order. *)
Fixpoint promise_all {A B} (f : A → Handler B) (xs : list A) : Handler (list B) :=
  match xs with
  | [] => mret []
  | x :: xs' => b ← f x; bs ← promise_all f xs'; mret (b :: bs)
  end.

(** *** Database primitives *)

(** The first row of [versionControlSettings] under key [k], in the order
    of the [by_key] index (creation order within one key). *)
Definition first_setting (db : DB) (k : string) : option SettingDoc :=
  List.find (λ s, bool_decide (key s = k)) (versionControlSettings db).

(** The row of [contentVersions] an id resolves to. *)
Definition stored_version (db : DB) (id : Id) : option VersionDoc :=
  List.find (λ v, bool_decide (v_id v = id)) (contentVersions db).

(** [ctx.db.query("versionControlSettings").withIndex("by_key",
    q => q.eq("key", k)).first()] *)
Definition query_settings_by_key_first (k : string) : Handler (option SettingDoc) :=
  db_read (λ db, first_setting db k).

(** [ctx.db.get(versionId)] on [contentVersions]. *)
Definition db_get_version (id : Id) : Handler (option VersionDoc) :=
  db_read (λ db, stored_version db id).

(** [ctx.db.get(contentId)] on a live post or page. *)
Definition db_get_content (cid : string) : Handler (option ContentDoc) :=
  db_read (λ db, liveContent db !! cid).

Definition db_insert_setting (k : string) (v : bool) : Handler Id :=
  λ db, (db_write (InsertSetting (mkSetting (nextId db) k v)) ≫=
         λ _, mret (nextId db)) db.

Definition db_patch_setting (id : Id) (v : bool) : Handler unit :=
  db_write (PatchSetting id v).

Definition db_insert_version (f : VersionFields) : Handler Id :=
  λ db, (db_write (InsertVersion (mkVersion (nextId db) f)) ≫=
         λ _, mret (nextId db)) db.

Definition db_delete_version (id : Id) : Handler unit :=
  db_write (DeleteVersion id).

Definition db_patch_content (cid : string) (p : ContentPatch) : Handler unit :=
  db_write (PatchContent cid p).

(** Modelled from the spec: the schema declaring the indexes is not part
    of the sources.  [by_content] is the index on
    [(contentType, contentId)]; within one key its order is creation
    order, and [.order("desc")] reverses it. *)
Definition matches_content (ct : ContentType) (cid : string) (v : VersionDoc) : bool :=
  bool_decide (contentType v = ct) && bool_decide (contentId v = cid).

Definition query_by_content_desc (ct : ContentType) (cid : string)
  : Handler (list VersionDoc) :=
  db_read (λ db, rev (List.filter (matches_content ct cid) (contentVersions db))).

(** Modelled from the spec: [by_createdAt] is the index on [createdAt],
    ascending, ties in creation order.  Inserting after every entry that
    is not newer keeps equal timestamps in creation order. *)
Fixpoint index_insert (v : VersionDoc) (l : list VersionDoc) : list VersionDoc :=
  match l with
  | [] => [v]
  | w :: l' => if (createdAt v <? createdAt w)%Z then v :: w :: l'
               else w :: index_insert v l'
  end.

Definition by_createdAt (l : list VersionDoc) : list VersionDoc :=
  fold_left (λ acc v, index_insert v acc) l [].

(** [.withIndex("by_createdAt", q => q.lt("createdAt", cutoff)).take(n)] *)
Definition query_by_createdAt_lt_take (cutoff : Z) (n : nat)
  : Handler (list VersionDoc) :=
  db_read (λ db,
    take n (List.filter (λ v : VersionDoc, (createdAt v <? cutoff)%Z)
                        (by_createdAt (contentVersions db)))).

(** [ctx.db.query("contentVersions").collect()] *)
Definition collect_versions : Handler (list VersionDoc) :=
  db_read contentVersions.

(** ** JavaScript helpers used by the handlers *)

(** [s.slice(start, end)] *)
Definition js_slice (s : string) (start end_ : Z) : string :=
  let len := Z.of_nat (String.length s) in
  let from := if (start <? 0)%Z then Z.max (len + start) 0 else Z.min start len in
  let to := if (end_ <? 0)%Z then Z.max (len + end_) 0 else Z.min end_ len in
  let span := Z.max (to - from) 0 in
  substring (Z.to_nat from) (Z.to_nat span) s.

(** [x || d] on an optional string: [undefined] and the empty string are falsy. *)
Definition js_or (x : option string) (d : string) : string :=
  match x with
  | Some (String a s) => String a s
  | Some EmptyString => d
  | None => d
  end.

(** [setting?.value === true] *)
Definition value_is_true (setting : option SettingDoc) : bool :=
  match setting with
  | Some s => bool_decide (value s = true)
  | None => false
  end.

(** A JavaScript number as the handlers meet it: a timestamp or one of
    the infinities [Math.min()] and [Math.max()] start from. *)
Inductive number := Num (z : Z) | PosInfinity | NegInfinity.

Definition number_min (a b : number) : number :=
  match a, b with
  | NegInfinity, _ | _, NegInfinity => NegInfinity
  | PosInfinity, x | x, PosInfinity => x
  | Num x, Num y => Num (Z.min x y)
  end.

Definition number_max (a b : number) : number :=
  match a, b with
  | PosInfinity, _ | _, PosInfinity => PosInfinity
  | NegInfinity, x | x, NegInfinity => x
  | Num x, Num y => Num (Z.max x y)
  end.

(** [Math.min(...xs)] and [Math.max(...xs)] *)
Definition Math_min (xs : list Z) : number :=
  fold_left (λ acc x, number_min acc (Num x)) xs PosInfinity.

Definition Math_max (xs : list Z) : number :=
  fold_left (λ acc x, number_max acc (Num x)) xs NegInfinity.

(** ** The handlers *)

(** Retention period: 3 days in milliseconds. *)
Definition RETENTION_MS : Z := 3 * 24 * 60 * 60 * 1000.

Definition isEnabled : Handler bool :=
  setting ← query_settings_by_key_first "enabled";
  mret (value_is_true setting).

Definition setEnabled (enabled : bool) : Handler unit :=
  existing ← query_settings_by_key_first "enabled";
  match existing with
  | Some existing => db_patch_setting (s_id existing) enabled
  | None => _ ← db_insert_setting "enabled" enabled; mret tt
  end.

Definition createVersion (now : Z) (contentType : ContentType)
    (contentId slug title content : string) (description : option string)
    (source : Source) : Handler (option Id) :=
  setting ← query_settings_by_key_first "enabled";
  if negb (value_is_true setting) then mret None
  else
    versionId ← db_insert_version
      {| contentType := contentType; contentId := contentId; slug := slug;
         title := title; content := content; description := description;
         createdAt := now; source := source |};
    mret (Some versionId).

Record Summary := mkSummary {
  h_id : Id;
  h_title : string;
  h_createdAt : Z;
  h_source : Source;
  contentPreview : string
}.

Definition summarize (v : VersionDoc) : Summary :=
  {| h_id := v_id v;
     h_title := title v;
     h_createdAt := createdAt v;
     h_source := source v;
     contentPreview :=
       js_slice (content v) 0 150 +:+
       (if (150 <? Z.of_nat (String.length (content v)))%Z then "..." else EmptyString) |}.

Definition getVersionHistory (contentType : ContentType) (contentId : string)
  : Handler (list Summary) :=
  versions ← query_by_content_desc contentType contentId;
  mret (map summarize versions).

Definition getVersion (versionId : Id) : Handler (option VersionDoc) :=
  version ← db_get_version versionId;
  match version : option VersionDoc with
  | None => mret None
  | Some version =>
      mret (Some (mkVersion (v_id version)
        {| contentType := contentType version; contentId := contentId version;
           slug := slug version; title := title version;
           content := content version; description := description version;
           createdAt := createdAt version; source := source version |}))
  end.

Record RestoreResult := mkResult { success : bool; message : string }.

Definition restoreVersion (now_backup now_patch : Z) (versionId : Id)
  : Handler RestoreResult :=
  version ← db_get_version versionId;
  match version : option VersionDoc with
  | None => mret {| success := false; message := "Version not found" |}
  | Some version =>
      currentContent ←
        match contentType version with
        | Post => db_get_content (contentId version)
        | Page => db_get_content (contentId version)
        end;
      match currentContent with
      | None => mret {| success := false; message := "Original content not found" |}
      | Some currentContent =>
          _ ← db_insert_version
            {| contentType := contentType version;
               contentId := contentId version;
               slug := slug version;
               title := c_title currentContent;
               content := c_content currentContent;
               description := c_description currentContent;
               createdAt := now_backup;
               source := Restore |};
          _ ← match contentType version with
              | Post =>
                  db_patch_content (contentId version)
                    {| p_title := title version;
                       p_content := content version;
                       p_description := Some (js_or (description version) EmptyString);
                       p_lastSyncedAt := now_patch |}
              | Page =>
                  db_patch_content (contentId version)
                    {| p_title := title version;
                       p_content := content version;
                       p_description := None;
                       p_lastSyncedAt := now_patch |}
              end;
          mret {| success := true; message := "Version restored successfully" |}
      end
  end.

Definition cleanupOldVersions (now : Z) : Handler nat :=
  let cutoff := (now - RETENTION_MS)%Z in
  oldVersions ← query_by_createdAt_lt_take cutoff 1000;
  _ ← promise_all (λ version : VersionDoc, db_delete_version (v_id version)) oldVersions;
  mret (length oldVersions).

Record Stats := mkStats {
  enabled : bool;
  totalVersions : nat;
  oldestVersion : option number;
  newestVersion : option number
}.

Definition getStats : Handler Stats :=
  setting ← query_settings_by_key_first "enabled";
  versions ← collect_versions;
  let timestamps := map (λ v : VersionDoc, createdAt v) versions in
  let oldest := if 0 <? length timestamps
                then Some (Math_min timestamps) else None in
  let newest := if 0 <? length timestamps
                then Some (Math_max timestamps) else None in
  mret {| enabled := value_is_true setting;
          totalVersions := length versions;
          oldestVersion := oldest;
          newestVersion := newest |}.

(** ** Derived notions used in the statements *)

(** The gate as [isEnabled] sees it. *)
Definition gate (db : DB) : bool := value_is_true (first_setting db "enabled").

(** Number of settings rows under a key. *)
Definition setting_count (k : string) (db : DB) : nat :=
  length (List.filter (λ s, bool_decide (key s = k)) (versionControlSettings db)).

(** Number of snapshots of a content key. *)
Definition snapshot_count (ct : ContentType) (cid : string) (db : DB) : nat :=
  length (List.filter (matches_content ct cid) (contentVersions db)).

(** Snapshots a sweep at time [now] may delete. *)
Definition eligible (now : Z) (v : VersionDoc) : bool :=
  (createdAt v <? now - RETENTION_MS)%Z.

Definition backlog (now : Z) (db : DB) : nat :=
  length (List.filter (eligible now) (contentVersions db)).

(** [n] successive sweeps at the same clock reading; the result is the
    total number of snapshots deleted. *)
Fixpoint sweep (n : nat) (now : Z) : Handler nat :=
  match n with
  | O => mret O
  | S n' => k ← cleanupOldVersions now; t ← sweep n' now; mret (k + t)
  end.

(** Successive sweeps, one per clock reading; the result lists the number
    each one deleted. *)
Fixpoint sweeps (nows : list Z) : Handler (list nat) :=
  match nows with
  | [] => mret []
  | now :: rest => k ← cleanupOldVersions now; ks ← sweeps rest; mret (k :: ks)
  end.

(** A handler whose write log accounts for its whole effect: replaying
    the log on the database it started from gives the database it ends
    with. *)
Definition faithful {A} (m : Handler A) : Prop :=
  ∀ db a db' log, m db = Some (a, db', log) → replay log db = Some db'.

(** Ids of stored snapshots and settings are pairwise distinct, as the
    database assigns them. *)
Definition unique_ids (db : DB) : Prop :=
  NoDup (map v_id (contentVersions db)) ∧
  NoDup (map s_id (versionControlSettings db)).

(** Every id in use lies below the counter. *)
Definition ids_below_counter (db : DB) : Prop :=
  (∀ v, In v (contentVersions db) → (v_id v < nextId db)%N) ∧
  (∀ s, In s (versionControlSettings db) → (s_id s < nextId db)%N).

Definition well_formed (db : DB) : Prop := unique_ids db ∧ ids_below_counter db.

(** An insert stores its document under the id the counter holds. *)
Definition allocates (w : Write) (db : DB) : Prop :=
  match w with
  | InsertSetting d => s_id d = nextId db
  | InsertVersion d => v_id d = nextId db
  | _ => True
  end.

(** The backup snapshot a restore of [v] over the live item [c] inserts. *)
Definition backup_of (now_backup : Z) (v : VersionDoc) (c : ContentDoc) (db : DB)
  : VersionDoc :=
  mkVersion (nextId db)
    {| contentType := contentType v; contentId := contentId v; slug := slug v;
       title := c_title c; content := c_content c;
       description := c_description c;
       createdAt := now_backup; source := Restore |}.

(** The snapshot [createVersion] inserts when the gate is on. *)
Definition created_version (now : Z) (ct : ContentType)
    (cid sl ti co : string) (de : option string) (src : Source) (db : DB)
  : VersionDoc :=
  mkVersion (nextId db)
    {| contentType := ct; contentId := cid; slug := sl; title := ti;
       content := co; description := de; createdAt := now; source := src |}.

(** The object a restore of [v] hands to [ctx.db.patch]. *)
Definition restore_patch (now_patch : Z) (v : VersionDoc) : ContentPatch :=
  {| p_title := title v;
     p_content := content v;
     p_description :=
       match contentType v with
       | Post => Some (js_or (description v) EmptyString)
       | Page => None
       end;
     p_lastSyncedAt := now_patch |}.

Definition restored : RestoreResult :=
  {| success := true; message := "Version restored successfully" |}.

(** The stored snapshots carry timestamps that never decrease from one
    insertion to the next, as a clock that does not run backwards
    stamps them. *)
Definition clock_ordered (db : DB) : Prop :=
  StronglySorted (λ a b : VersionDoc, (createdAt a ≤ createdAt b)%Z)
                 (contentVersions db).

(** A database with the gate on, and the same after two edits of post
    ["p1"] recorded within one millisecond. *)
Definition db_gate_on : DB :=
  mkDB [mkSetting 0%N "enabled" true] [] ∅ 1%N.

Definition db_same_instant : DB :=
  mkDB [mkSetting 0%N "enabled" true]
       [mkVersion 1%N (mkFields Post "p1" "hello" "A" "first" None 1000%Z Dashboard);
        mkVersion 2%N (mkFields Post "p1" "hello" "B" "second" None 1000%Z Dashboard)]
       ∅ 3%N.

(** Two edits of post ["p1"] stamped by a clock that was set back in
    between. *)
Definition db_clock_set_back : DB :=
  mkDB [mkSetting 0%N "enabled" true]
       [mkVersion 1%N (mkFields Post "p1" "hello" "A" "first" None 2000%Z Dashboard);
        mkVersion 2%N (mkFields Post "p1" "hello" "B" "second" None 1000%Z Dashboard)]
       ∅ 3%N.

(** The batch a sweep at [now] selects: the first 1000 entries of the
    [by_createdAt] index below the cutoff. *)
Definition sweep_batch (now : Z) (db : DB) : list VersionDoc :=
  take 1000 (List.filter (eligible now) (by_createdAt (contentVersions db))).

(** The rows left once the documents under [ids] are deleted. *)
Definition without_ids (ids : list Id) (vs : list VersionDoc) : list VersionDoc :=
  List.filter (λ v, bool_decide (v_id v ∉ ids)) vs.

(** A small site: the gate is off, one post and one page are live, and
    three snapshots are stored, the last of a post deleted since. *)
Definition post_p1 : ContentDoc :=
  mkContent "B" "second" (Some "about B") (Some 1500%Z)
            [("slug", "hello"); ("published", "true")].

Definition page_about : ContentDoc :=
  mkContent "About" "We write." None (Some 1200%Z) [("slug", "about")].

Definition snapshot_1 : VersionDoc :=
  mkVersion 1%N (mkFields Post "p1" "hello" "A" "first" None 1000%Z Dashboard).

Definition snapshot_2 : VersionDoc :=
  mkVersion 2%N (mkFields Page "about" "about" "About us" "We wrote." None 1100%Z Sync).

Definition snapshot_3 : VersionDoc :=
  mkVersion 3%N (mkFields Post "gone" "bye" "Old" "old" (Some "x") 1200%Z Sync).

Definition db_site : DB :=
  mkDB [mkSetting 0%N "enabled" false]
       [snapshot_1; snapshot_2; snapshot_3]
       {[ "p1" := post_p1; "about" := page_about ]}
       4%N.

(** A site whose one snapshot of post ["p1"] carries a description. *)
Definition snapshot_teaser : VersionDoc :=
  mkVersion 1%N (mkFields Post "p1" "hello" "A" "first" (Some "teaser") 1000%Z
                          Dashboard).

Definition db_teaser : DB :=
  mkDB [] [snapshot_teaser] {[ "p1" := post_p1 ]} 2%N.

(** ** Media files (the [files] module, first half of [convex/files.ts]) *)

(** Allowed image MIME types. *)
Definition ALLOWED_TYPES : list string :=
  ["image/png"; "image/jpeg"; "image/gif"; "image/webp"].

(** Max file size in bytes (10MB). *)
Definition MAX_FILE_SIZE : Z := 10 * 1024 * 1024.

(** The environment variables [convex/fs.ts] reads. *)
Record Env := mkEnv {
  BUNNY_API_KEY : option string;
  BUNNY_STORAGE_ZONE : option string;
  BUNNY_CDN_HOSTNAME : option string
}.

(** [!!x] on an environment variable: unset and empty are falsy. *)
Definition js_truthy_string (x : option string) : bool :=
  match x with
  | Some (String _ _) => true
  | Some EmptyString => false
  | None => false
  end.

Definition isBunnyConfigured (env : Env) : bool :=
  js_truthy_string (BUNNY_API_KEY env) &&
  js_truthy_string (BUNNY_STORAGE_ZONE env) &&
  js_truthy_string (BUNNY_CDN_HOSTNAME env).

(** The character class [[a-zA-Z0-9.-]]. *)
Definition is_safe_char (a : ascii) : bool :=
  let n := nat_of_ascii a in
  ((97 <=? n) && (n <=? 122)) || ((65 <=? n) && (n <=? 90)) ||
  ((48 <=? n) && (n <=? 57)) || (n =? 46) || (n =? 45).

Definition is_dash (a : ascii) : bool := nat_of_ascii a =? 45.

(** [.replace(/[^a-zA-Z0-9.-]/g, "-")] *)
Fixpoint replace_unsafe (s : string) : string :=
  match s with
  | EmptyString => EmptyString
  | String a s' => String (if is_safe_char a then a else "-"%char) (replace_unsafe s')
  end.

Definition starts_with_dash (s : string) : bool :=
  match s with
  | String a _ => is_dash a
  | EmptyString => false
  end.

(** [.replace(/-+/g, "-")]: of every run of dashes one is kept. *)
Fixpoint collapse_dashes (s : string) : string :=
  match s with
  | EmptyString => EmptyString
  | String a s' =>
      if is_dash a && starts_with_dash s' then collapse_dashes s'
      else String a (collapse_dashes s')
  end.

(** The lower-case form of a one-byte code unit: A-Z and the upper-case
    letters of Latin-1. *)
Definition lower_char (a : ascii) : ascii :=
  let n := nat_of_ascii a in
  if ((65 <=? n) && (n <=? 90)) ||
     ((192 <=? n) && (n <=? 222) && negb (n =? 215))
  then ascii_of_nat (n + 32) else a.

(** [.toLowerCase()] *)
Fixpoint toLowerCase (s : string) : string :=
  match s with
  | EmptyString => EmptyString
  | String a s' => String (lower_char a) (toLowerCase s')
  end.

(** The [sanitizedName] of [commitFile]. *)
Definition sanitizeFilename (filename : string) : string :=
  toLowerCase (collapse_dashes (replace_unsafe filename)).

(** Every character of a string passes a test. *)
Fixpoint string_forallb (p : ascii → bool) (s : string) : bool :=
  match s with
  | EmptyString => true
  | String a s' => p a && string_forallb p s'
  end.

(** The character class [[a-z0-9.-]]. *)
Definition is_clean_char (a : ascii) : bool :=
  let n := nat_of_ascii a in
  ((97 <=? n) && (n <=? 122)) || ((48 <=? n) && (n <=? 57)) ||
  (n =? 46) || (n =? 45).

(** No dash is followed by a dash. *)
Fixpoint no_double_dash (s : string) : bool :=
  match s with
  | EmptyString => true
  | String a s' => negb (is_dash a && starts_with_dash s') && no_double_dash s'
  end.

(** A float64, the type of a [v.number()] argument and of a [File]'s
    [size]: a finite value [m * 2^e], NaN or an infinity.  Every finite
    float64 is [m * 2^e] for some [|m| < 2^53] and [-1074 ≤ e ≤ 971]. *)
Inductive float64 :=
| FFinite (m e : Z)
| FNaN
| FPosInf
| FNegInf.

(** An integer as a float64. *)
Definition float_of_Z (z : Z) : float64 := FFinite z 0.

(** [x > z] for an integer [z]; every comparison with NaN is false. *)
Definition float_gt_Z (x : float64) (z : Z) : bool :=
  match x with
  | FFinite m e =>
      if (0 <=? e)%Z then (z <? m * 2 ^ e)%Z else (z * 2 ^ (- e) <? m)%Z
  | FNaN => false
  | FPosInf => true
  | FNegInf => false
  end.

(** The float64 nearest to the exact value [m * 2^e], ties to the even
    significand, an infinity from [2^1024] on.  [q] is the exponent of
    the last place: 52 below that of the leading bit, and no less than
    -1074. *)
Definition float_round (m e : Z) : float64 :=
  if (m =? 0)%Z then FFinite 0 0
  else
    let a := Z.abs m in
    let q := Z.max (e + Z.log2 a - 52) (- 1074) in
    let n :=
      if (q <=? e)%Z then a
      else
        let s := (q - e)%Z in
        let n := (a / 2 ^ s)%Z in
        let r := (a mod 2 ^ s)%Z in
        let half := (2 ^ (s - 1))%Z in
        if (half <? r)%Z || ((r =? half)%Z && Z.odd n) then (n + 1)%Z else n in
    let q' := if (q <=? e)%Z then e else q in
    if (0 <? n)%Z && (1024 - q' <=? Z.log2 n)%Z
    then (if (0 <? m)%Z then FPosInf else FNegInf)
    else FFinite (Z.sgn m * n) q'.

(** [x + y] on float64. *)
Definition float_add (x y : float64) : float64 :=
  match x, y with
  | FNaN, _ | _, FNaN => FNaN
  | FPosInf, FNegInf | FNegInf, FPosInf => FNaN
  | FPosInf, _ | _, FPosInf => FPosInf
  | FNegInf, _ | _, FNegInf => FNegInf
  | FFinite m1 e1, FFinite m2 e2 =>
      let e := Z.min e1 e2 in
      float_round (m1 * 2 ^ (e1 - e) + m2 * 2 ^ (e2 - e)) e
  end.

(** What [fs.stat] returns for a stored file. *)
Record FileInfo := mkFileInfo {
  f_path : string;
  f_blobId : string;
  f_contentType : string;
  f_size : Z
}.

(** An operation of [fs.transact]. *)
Inductive FsOp :=
| SetAttributes (source : FileInfo) (expiresAt : option float64).

(** The ConvexFS instance [fs], an external library: its operations are
    taken as an interface over a storage state; [None] is a thrown
    exception. *)
Class ConvexFS (Store : Type) := {
  fs_commitFiles : list (string * string) → Store → option Store;
  fs_stat : string → Store → option FileInfo;
  fs_delete : string → Store → option Store;
  fs_transact : list FsOp → Store → option Store
}.

(** What a handler of the [files] module throws.  [FileTooLarge] stands
    for the error whose message formats the size with [toFixed(2)];
    [FsThrew] for an exception of the library. *)
Inductive FilesError :=
| ErrorMessage (message : string)
| FileTooLarge (size : float64)
| FsThrew.

Record CommitArgs := mkCommitArgs {
  a_blobId : string;
  a_filename : string;
  a_contentType : string;
  a_size : float64;
  a_width : option float64;
  a_height : option float64
}.

Record CommitResult := mkCommitResult {
  r_path : string;
  r_filename : string;
  r_contentType : string;
  r_size : float64;
  r_width : option float64;
  r_height : option float64
}.

Definition commitFile {Store} `{ConvexFS Store} (env : Env) (now : Z) (args : CommitArgs)
    (st : Store) : FilesError + (CommitResult * Store) :=
  if negb (isBunnyConfigured env) then
    inl (ErrorMessage
      "Media uploads not configured. Set BUNNY_API_KEY, BUNNY_STORAGE_ZONE, and BUNNY_CDN_HOSTNAME in Convex Dashboard.")
  else if negb (bool_decide (a_contentType args ∈ ALLOWED_TYPES)) then
    inl (ErrorMessage
      ("Invalid file type: " +:+ a_contentType args +:+ ". Allowed: " +:+
       String.concat ", " ALLOWED_TYPES))
  else if float_gt_Z (a_size args) MAX_FILE_SIZE then
    inl (FileTooLarge (a_size args))
  else
    let sanitizedName := sanitizeFilename (a_filename args) in
    let timestamp := now in
    let path := "/uploads/" +:+ pretty timestamp +:+ "-" +:+ sanitizedName in
    match fs_commitFiles [(path, a_blobId args)] st with
    | None => inl FsThrew
    | Some st' =>
        inr ({| r_path := path;
                r_filename := sanitizedName;
                r_contentType := a_contentType args;
                r_size := a_size args;
                r_width := a_width args;
                r_height := a_height args |}, st')
    end.

Definition deleteFile {Store} `{ConvexFS Store} (env : Env) (path : string) (st : Store)
  : FilesError + (bool * Store) :=
  if negb (isBunnyConfigured env) then
    inl (ErrorMessage "Media uploads not configured")
  else
    match fs_delete path st with
    | None => inl FsThrew
    | Some st' => inr (true, st')
    end.

(** The [for] loop of [deleteFiles]. *)
Fixpoint deleteFiles_loop {Store} `{ConvexFS Store} (paths : list string) (deleted : nat)
    (st : Store) : option (nat * Store) :=
  match paths with
  | [] => Some (deleted, st)
  | path :: rest =>
      match fs_delete path st with
      | None => None
      | Some st' => deleteFiles_loop rest (deleted + 1) st'
      end
  end.

(** The result carries [success] and [deleted]. *)
Definition deleteFiles {Store} `{ConvexFS Store} (env : Env) (paths : list string) (st : Store)
  : FilesError + (bool * nat * Store) :=
  if negb (isBunnyConfigured env) then
    inl (ErrorMessage "Media uploads not configured")
  else
    match deleteFiles_loop paths 0 st with
    | None => inl FsThrew
    | Some (deleted, st') => inr (true, deleted, st')
    end.

(** [x ? ... : ...] on an optional number: [undefined], zero of either
    sign and NaN are falsy. *)
Definition js_truthy_number (x : option float64) : bool :=
  match x with
  | Some (FFinite m _) => negb (m =? 0)%Z
  | Some FNaN => false
  | Some FPosInf => true
  | Some FNegInf => true
  | None => false
  end.

(** The result carries [success] and [expiresAt].  [now] is the integer
    [Date.now()] returns; [expiresInMs] is any float64, and the sum is
    the float64 one. *)
Definition setFileExpiration {Store} `{ConvexFS Store} (env : Env) (now : Z) (path : string)
    (expiresInMs : option float64) (st : Store)
  : FilesError + (bool * option float64 * Store) :=
  if negb (isBunnyConfigured env) then
    inl (ErrorMessage "Media uploads not configured")
  else
    match fs_stat path st with
    | None => inl (ErrorMessage "File not found")
    | Some file =>
        let expiresAt :=
          match expiresInMs with
          | Some ms =>
              if js_truthy_number expiresInMs
              then Some (float_add (float_of_Z now) ms) else None
          | None => None
          end in
        match fs_transact [SetAttributes file expiresAt] st with
        | None => inl FsThrew
        | Some st' => inr (true, expiresAt, st')
        end
    end.

(** The two checks at the head of [handleUpload] in the image upload
    modal: the message of the error thrown, if any. *)
Definition handleUpload_check (type : string) (size : float64) : option string :=
  if negb (String.prefix "image/" type) then Some "File must be an image"
  else if float_gt_Z size (10 * 1024 * 1024) then Some "File exceeds 10MB limit"
  else None.

(** A storage for the examples: files by path; deleting a missing path
    does nothing; committing and transacting rewrite the entry. *)
#[global] Instance map_fs : ConvexFS (gmap string (FileInfo * option float64)) := {|
  fs_commitFiles := λ files st,
    Some (fold_right (λ '(path, blob) acc,
            <[path := (mkFileInfo path blob "image/png" 0%Z, None)]> acc) st files);
  fs_stat := λ path st, fst <$> st !! path;
  fs_delete := λ path st, Some (delete path st);
  fs_transact := λ ops st,
    Some (fold_right (λ op acc,
            match op with
            | SetAttributes f e => <[f_path f := (f, e)]> acc
            end) st ops)
|}.

(** ** The history dialog ([VersionHistoryModal.tsx]) *)

(** What [formatDate] returns: a text it builds, or
    [date.toLocaleString()], whose text depends on the locale. *)
Inductive DateText :=
| Text (s : string)
| LocaleString (timestamp : Z).

(** [n !== 1 ? "s" : ""] *)
Definition plural_s (n : Z) : string :=
  if bool_decide (n ≠ 1%Z) then "s" else EmptyString.

(** [formatDate], with [new Date()] as the argument [now].  The
    quotients are those of [Math.floor(a / b)]; for differences below
    2^40 milliseconds the floating-point quotient is exact enough for its
    floor to be the integer quotient. *)
Definition formatDate (now timestamp : Z) : DateText :=
  let diffMs := (now - timestamp)%Z in
  let diffHours := (diffMs / (1000 * 60 * 60))%Z in
  let diffDays := (diffHours / 24)%Z in
  if (diffHours <? 1)%Z then
    let diffMins := (diffMs / (1000 * 60))%Z in
    Text (pretty diffMins +:+ " minute" +:+ plural_s diffMins +:+ " ago")
  else if (diffHours <? 24)%Z then
    Text (pretty diffHours +:+ " hour" +:+ plural_s diffHours +:+ " ago")
  else if (diffDays <? 3)%Z then
    Text (pretty diffDays +:+ " day" +:+ plural_s diffDays +:+ " ago")
  else LocaleString timestamp.

(** A configured environment, an upload and a storage holding one file,
    for the examples. *)
Definition env_configured : Env :=
  mkEnv (Some "key") (Some "zone") (Some "cdn.example.net").

Definition args_photo : CommitArgs :=
  mkCommitArgs "blob-1" "My Photo (1).PNG" "image/png" (float_of_Z 10485760)
               (Some (float_of_Z 640)) (Some (float_of_Z 480)).

(** An upload whose [size] is NaN. *)
Definition args_nan : CommitArgs :=
  mkCommitArgs "blob-2" "x.png" "image/png" FNaN None None.

Definition file_logo : FileInfo :=
  mkFileInfo "/uploads/1-logo.png" "blob-0" "image/png" 2048%Z.

Definition store_logo : gmap string (FileInfo * option float64) :=
  {[ "/uploads/1-logo.png" := (file_logo, None) ]}.

(** The state update of [toggleFileSelection] in the media library; the
    JavaScript [Set] of selected paths is a finite set. *)
Definition toggleFileSelection (path : string) (prev : gset string) : gset string :=
  let next := prev in
  if bool_decide (path ∈ next) then next ∖ {[path]} else next ∪ {[path]}.

(** ** Unfolding handlers *)

Ltac run_handler :=
  unfold isEnabled, setEnabled, createVersion, getVersionHistory, getVersion,
    restoreVersion, getStats,
    query_settings_by_key_first, db_get_version, db_get_content,
    db_insert_setting, db_patch_setting, db_insert_version, db_delete_version,
    db_patch_content, query_by_content_desc, collect_versions,
    db_read, db_write, mbind, mret, Handler_bind, Handler_ret;
  cbn beta iota.

(** ** The write log is the effect *)

Lemma replay_app (ws1 ws2 : list Write) (db : DB) :
  replay (ws1 ++ ws2) db =
  match replay ws1 db with Some db1 => replay ws2 db1 | None => None end.
Proof.
  revert db. induction ws1 as [|w ws1 IH]; intros db; [done|]. cbn.
  destruct (apply_write w db); [apply IH | done].
Qed.

Lemma faithful_ret {A} (a : A) : faithful (mret a).
Proof. by intros db a' db' log [= _ <- <-]. Qed.

Lemma faithful_bind {A B} (m : Handler A) (f : A → Handler B) :
  faithful m → (∀ a, faithful (f a)) → faithful (m ≫= f).
Proof.
  intros Hm Hf db b db' log. unfold mbind, Handler_bind.
  destruct (m db) as [[[a db1] w1]|] eqn:E1; [|done].
  destruct (f a db1) as [[[b' db2] w2]|] eqn:E2; [|done].
  intros [= _ <- <-]. rewrite replay_app, (Hm _ _ _ _ E1). by eapply Hf.
Qed.

Lemma faithful_read {A} (f : DB → A) : faithful (db_read f).
Proof. by intros db a db' log [= _ <- <-]. Qed.

Lemma faithful_write (w : Write) : faithful (db_write w).
Proof.
  intros db a db' log. unfold db_write.
  destruct (apply_write w db) as [db1|] eqn:E; [|done].
  intros [= _ <- <-]. cbn. by rewrite E.
Qed.

Lemma faithful_insert_version (f : VersionFields) : faithful (db_insert_version f).
Proof.
  intros db a db' log H.
  by apply (faithful_bind (db_write (InsertVersion (mkVersion (nextId db) f)))
              (λ _, mret (nextId db)) (faithful_write _) (λ _, faithful_ret _)
              db a db' log).
Qed.

Lemma faithful_insert_setting (k : string) (v : bool) :
  faithful (db_insert_setting k v).
Proof.
  intros db a db' log H.
  by apply (faithful_bind (db_write (InsertSetting (mkSetting (nextId db) k v)))
              (λ _, mret (nextId db)) (faithful_write _) (λ _, faithful_ret _)
              db a db' log).
Qed.

Lemma faithful_promise_all {A B} (f : A → Handler B) (xs : list A) :
  (∀ x, faithful (f x)) → faithful (promise_all f xs).
Proof.
  intros Hf. induction xs as [|x xs IH]; cbn [promise_all].
  - apply faithful_ret.
  - apply faithful_bind; [apply Hf|]. intros b.
    apply faithful_bind; [apply IH|]. intros bs. apply faithful_ret.
Qed.

Create HintDb faithful.
#[local] Hint Resolve faithful_ret faithful_read faithful_write
  faithful_insert_version faithful_insert_setting faithful_promise_all : faithful.

Ltac faithful_steps :=
  repeat first
    [ apply faithful_bind; [|intros ?]
    | match goal with
      | |- faithful (match ?x with _ => _ end) => destruct x
      | |- faithful (if ?x then _ else _) => destruct x
      end
    | progress auto with faithful ].

(** Every handler's log replays to its final database, so the order of
    the log is the order in which the database changed. *)
Lemma handlers_faithful :
  faithful isEnabled ∧
  (∀ b, faithful (setEnabled b)) ∧
  (∀ now ct cid sl ti co de src,
     faithful (createVersion now ct cid sl ti co de src)) ∧
  (∀ ct cid, faithful (getVersionHistory ct cid)) ∧
  (∀ id, faithful (getVersion id)) ∧
  (∀ nb np id, faithful (restoreVersion nb np id)) ∧
  (∀ now, faithful (cleanupOldVersions now)) ∧
  faithful getStats.
Proof.
  repeat split; intros;
    unfold isEnabled, setEnabled, createVersion, getVersionHistory, getVersion,
      restoreVersion, cleanupOldVersions, getStats,
      query_settings_by_key_first, db_get_version, db_get_content,
      db_patch_setting, db_delete_version, db_patch_content,
      query_by_content_desc, query_by_createdAt_lt_take, collect_versions;
    faithful_steps.
Qed.

(** ** The version gate *)

Lemma first_setting_In (db : DB) (k : string) (s : SettingDoc) :
  first_setting db k = Some s → In s (versionControlSettings db) ∧ key s = k.
Proof.
  unfold first_setting. intros H. apply find_some in H as [Hin Hk].
  split; [exact Hin | by apply bool_decide_eq_true in Hk].
Qed.

Lemma has_setting_of_first (db : DB) (k : string) (s : SettingDoc) :
  first_setting db k = Some s → has_setting (s_id s) db = true.
Proof.
  intros H. apply first_setting_In in H as [Hin _].
  unfold has_setting. apply existsb_exists. exists s. split; [done|].
  by apply bool_decide_eq_true.
Qed.

Lemma find_patch_setting (k : string) (id : Id) (b : bool) (l : list SettingDoc) :
  List.find (λ s, bool_decide (key s = k)) (map (patch_setting id b) l) =
  patch_setting id b <$> List.find (λ s, bool_decide (key s = k)) l.
Proof.
  induction l as [|s l IH]; [done|]. cbn [map List.find].
  assert (key (patch_setting id b s) = key s) as ->.
  { unfold patch_setting. by case_bool_decide. }
  case_bool_decide; [done | exact IH].
Qed.

Lemma find_app_None {A} (f : A → bool) (l1 l2 : list A) :
  List.find f l1 = None → List.find f (l1 ++ l2) = List.find f l2.
Proof.
  induction l1 as [|x l1 IH]; [done|]. cbn. destruct (f x); [done | exact IH].
Qed.

Lemma find_app_Some {A} (f : A → bool) (l1 l2 : list A) (x : A) :
  List.find f l1 = Some x → List.find f (l1 ++ l2) = Some x.
Proof.
  induction l1 as [|y l1 IH]; [done|]. cbn. destruct (f y); [done | exact IH].
Qed.

Lemma patch_setting_twice (id : Id) (b : bool) (l : list SettingDoc) :
  map (patch_setting id b) (map (patch_setting id b) l) = map (patch_setting id b) l.
Proof.
  rewrite map_map. apply map_ext. intros s. unfold patch_setting.
  destruct (bool_decide (s_id s = id)) eqn:E; cbn; by rewrite E.
Qed.

Lemma filter_key_patch (k : string) (id : Id) (b : bool) (l : list SettingDoc) :
  length (List.filter (λ s, bool_decide (key s = k)) (map (patch_setting id b) l)) =
  length (List.filter (λ s, bool_decide (key s = k)) l).
Proof.
  induction l as [|s l IH]; [done|]. cbn [map List.filter].
  assert (key (patch_setting id b s) = key s) as ->.
  { unfold patch_setting. by case_bool_decide. }
  case_bool_decide; cbn; by rewrite IH.
Qed.

Lemma first_setting_count (db : DB) (k : string) :
  match first_setting db k with
  | Some _ => 1 ≤ setting_count k db
  | None => setting_count k db = 0
  end.
Proof.
  unfold first_setting, setting_count.
  induction (versionControlSettings db) as [|s l IH]; [done|].
  cbn. case_bool_decide; cbn; [lia | exact IH].
Qed.

Lemma gate_true_only_when (db : DB) :
  gate db = true →
  ∃ s, In s (versionControlSettings db) ∧ key s = "enabled" ∧ value s = true.
Proof.
  unfold gate, value_is_true. destruct (first_setting db "enabled") as [s|] eqn:E; [|done].
  intros Hv. apply bool_decide_eq_true in Hv.
  apply first_setting_In in E as [Hin Hk]. by exists s.
Qed.

Lemma gate_false_otherwise (db : DB) :
  (∀ s, In s (versionControlSettings db) → key s = "enabled" → value s = false) →
  gate db = false.
Proof.
  intros Hall. destruct (gate db) eqn:E; [|done].
  apply gate_true_only_when in E as (s & Hin & Hk & Hv).
  rewrite (Hall s Hin Hk) in Hv. done.
Qed.

(** Under the one-row-per-key discipline the gate is on exactly when the
    row under ["enabled"] holds [true]. *)
Lemma gate_true_when_unique (db : DB) (s : SettingDoc) :
  setting_count "enabled" db ≤ 1 →
  In s (versionControlSettings db) → key s = "enabled" → value s = true →
  gate db = true.
Proof.
  unfold gate, setting_count, first_setting, value_is_true.
  induction (versionControlSettings db) as [|x l IH]; [done|].
  cbn [List.filter List.find]. intros Hc [->|Hin] Hk Hv.
  - rewrite bool_decide_eq_true_2 by done. by apply bool_decide_eq_true.
  - case_bool_decide as Hx.
    + cbn in Hc. assert (In s (List.filter (λ s, bool_decide (key s = "enabled")) l)) as Hs.
      { apply filter_In. split; [done|]. by apply bool_decide_eq_true. }
      destruct (List.filter _ l); [done | cbn in Hc; lia].
    + by apply IH.
Qed.

Lemma setEnabled_run (b : bool) (db : DB) :
  setEnabled b db =
  match first_setting db "enabled" with
  | Some s =>
      Some (tt,
            mkDB (map (patch_setting (s_id s) b) (versionControlSettings db))
                 (contentVersions db) (liveContent db) (nextId db),
            [PatchSetting (s_id s) b])
  | None =>
      Some (tt,
            mkDB (versionControlSettings db ++ [mkSetting (nextId db) "enabled" b])
                 (contentVersions db) (liveContent db) (N.succ (nextId db)),
            [InsertSetting (mkSetting (nextId db) "enabled" b)])
  end.
Proof.
  run_handler. destruct (first_setting db "enabled") as [s|] eqn:E.
  - run_handler. cbn [apply_write]. by rewrite (has_setting_of_first _ _ _ E).
  - run_handler. done.
Qed.

Lemma first_setting_after_set (b : bool) (db db' : DB) (log : list Write) :
  setEnabled b db = Some (tt, db', log) →
  ∃ s, first_setting db' "enabled" = Some s ∧ value s = b ∧
       patch_setting (s_id s) b s = s.
Proof.
  rewrite setEnabled_run. destruct (first_setting db "enabled") as [s|] eqn:E;
    intros [= <- <-]; unfold first_setting in *; cbn [versionControlSettings].
  - rewrite find_patch_setting, E. cbn. unfold patch_setting.
    rewrite bool_decide_eq_true_2 by done. eexists. split; [done|]. cbn.
    by rewrite bool_decide_eq_true_2.
  - rewrite find_app_None by done. cbn. eexists. split; [done|].
    split; [done|]. unfold patch_setting. cbn. by case_bool_decide.
Qed.

Lemma setting_count_after_set (b : bool) (db db' : DB) (log : list Write) (k : string) :
  setEnabled b db = Some (tt, db', log) →
  setting_count k db' =
  if bool_decide (k = "enabled") then Nat.max 1 (setting_count k db)
  else setting_count k db.
Proof.
  rewrite setEnabled_run. pose proof (first_setting_count db "enabled") as Hc.
  destruct (first_setting db "enabled") as [s|] eqn:E; intros [= <- <-];
    unfold setting_count in *; cbn [versionControlSettings].
  - rewrite filter_key_patch. case_bool_decide as Hk; [subst k; lia | done].
  - rewrite List.filter_app, length_app. cbn.
    case_bool_decide as Hk.
    + subst k. rewrite bool_decide_eq_true_2 by done. cbn. lia.
    + rewrite bool_decide_eq_false_2 by done. cbn. lia.
Qed.

Lemma map_patch_setting_fresh (id : Id) (b : bool) (l : list SettingDoc) :
  (∀ s, In s l → s_id s ≠ id) → map (patch_setting id b) l = l.
Proof.
  intros H. rewrite <- (map_id l) at 2. apply map_ext_in. intros s Hs.
  unfold patch_setting. by rewrite bool_decide_eq_false_2 by auto.
Qed.

Lemma setEnabled_idempotent (b : bool) (db db' : DB) (log : list Write) :
  ids_below_counter db →
  setEnabled b db = Some (tt, db', log) →
  ∃ log', setEnabled b db' = Some (tt, db', log').
Proof.
  intros [_ Hbelow] Hset. rewrite setEnabled_run in Hset. rewrite setEnabled_run.
  destruct (first_setting db "enabled") as [s|] eqn:E; injection Hset as <- <-;
    unfold first_setting in *; cbn [versionControlSettings contentVersions
                                    liveContent nextId].
  - rewrite find_patch_setting, E. cbn [fmap option_fmap option_map].
    assert (s_id (patch_setting (s_id s) b s) = s_id s) as ->.
    { unfold patch_setting. by case_bool_decide. }
    rewrite patch_setting_twice. by eexists.
  - rewrite find_app_None by done. cbn [List.find key s_id].
    rewrite bool_decide_eq_true_2 by done. cbn [s_id].
    rewrite map_app, map_patch_setting_fresh.
    + cbn. unfold patch_setting. cbn. rewrite bool_decide_eq_true_2 by done.
      by eexists.
    + intros s Hs. specialize (Hbelow s Hs). unfold Id in *. lia.
Qed.

(** C8. [isEnabled] is a pure read that answers [true] only when a row
    with key ["enabled"] and value [true] exists (no such row, or only
    rows holding [false], give [false]).  [setEnabled b] always succeeds;
    afterwards [isEnabled] answers exactly [b]; a second [setEnabled b]
    leaves the database as it is; it updates the row when one is present
    and inserts one when none is, so a table with at most one row per key
    keeps at most one row per key. *)
Theorem setEnabled_isEnabled_upsert (b : bool) (db : DB) :
  well_formed db →
  isEnabled db = Some (gate db, db, []) ∧
  (gate db = true →
     ∃ s, In s (versionControlSettings db) ∧ key s = "enabled" ∧ value s = true) ∧
  ((∀ s, In s (versionControlSettings db) → key s = "enabled" → value s = false) →
     gate db = false) ∧
  ∃ db' log,
    setEnabled b db = Some (tt, db', log) ∧
    isEnabled db' = Some (b, db', []) ∧
    (∃ log', setEnabled b db' = Some (tt, db', log')) ∧
    (∀ k, setting_count k db' =
          if bool_decide (k = "enabled") then Nat.max 1 (setting_count k db)
          else setting_count k db) ∧
    ((∀ k, setting_count k db ≤ 1) → ∀ k, setting_count k db' ≤ 1) ∧
    match first_setting db "enabled" with
    | Some s => log = [PatchSetting (s_id s) b] ∧
                length (versionControlSettings db') = length (versionControlSettings db)
    | None => log = [InsertSetting (mkSetting (nextId db) "enabled" b)] ∧
              versionControlSettings db' =
              versionControlSettings db ++ [mkSetting (nextId db) "enabled" b]
    end ∧
    contentVersions db' = contentVersions db ∧
    liveContent db' = liveContent db.
Proof.
  intros [_ Hbelow].
  split; [done|]. split; [apply gate_true_only_when|].
  split; [apply gate_false_otherwise|].
  destruct (setEnabled b db) as [[[[] db'] log]|] eqn:Hset;
    [|rewrite setEnabled_run in Hset; by destruct (first_setting db "enabled")].
  exists db', log. split; [done|].
  pose proof (first_setting_after_set _ _ _ _ Hset) as (s' & Hs' & Hv' & _).
  pose proof (λ k, setting_count_after_set b db db' log k Hset) as Hcount.
  split.
  { run_handler. unfold value_is_true. rewrite Hs', Hv'. by destruct b. }
  split; [by eapply setEnabled_idempotent|].
  split; [exact Hcount|].
  split.
  { intros Hle k. rewrite Hcount. specialize (Hle k). case_bool_decide; lia. }
  rewrite setEnabled_run in Hset.
  destruct (first_setting db "enabled") as [s|]; injection Hset as <- <-;
    cbn [versionControlSettings contentVersions liveContent];
    by rewrite ?length_map.
Qed.

(** ** Well-formedness is an invariant of every write *)

Lemma NoDup_map_filter {A B} (f : A → B) (p : A → bool) (l : list A) :
  NoDup (map f l) → NoDup (map f (List.filter p l)).
Proof.
  induction l as [|x l IH]; [done|]. cbn. intros H.
  apply NoDup_cons in H as [Hx Hl]. destruct (p x); [|by apply IH].
  cbn. apply NoDup_cons. split; [|by apply IH].
  intros Hin. apply Hx. apply list_elem_of_In in Hin. apply list_elem_of_In.
  apply in_map_iff in Hin as (y & <- & Hy). apply in_map.
  by apply filter_In in Hy as [Hy _].
Qed.

Lemma NoDup_map_snoc {A} (f : A → N) (l : list A) (x : A) (n : N) :
  NoDup (map f l) → (∀ y, In y l → (f y < n)%N) → f x = n →
  NoDup (map f (l ++ [x])).
Proof.
  intros Hl Hlt Hx. rewrite map_app. cbn. apply NoDup_app. split; [done|].
  split; [|apply NoDup_singleton].
  intros y Hy Hy'. apply list_elem_of_In in Hy. apply list_elem_of_In in Hy'.
  apply in_map_iff in Hy as (z & <- & Hz). destruct Hy' as [Heq|[]].
  specialize (Hlt z Hz). lia.
Qed.

Lemma map_s_id_patch (id : Id) (b : bool) (l : list SettingDoc) :
  map s_id (map (patch_setting id b) l) = map s_id l.
Proof.
  rewrite map_map. apply map_ext. intros s. unfold patch_setting.
  by case_bool_decide.
Qed.

Lemma apply_write_well_formed (w : Write) (db db' : DB) :
  well_formed db → allocates w db → apply_write w db = Some db' →
  well_formed db'.
Proof.
  intros [[Hv Hs] [Hbv Hbs]] Halloc Hw. unfold Id in *.
  destruct w as [d|id b|d|id|cid p]; cbn in Hw, Halloc.
  - injection Hw as <-. repeat split; cbn; try done.
    + by eapply NoDup_map_snoc.
    + intros v Hin. specialize (Hbv v Hin). lia.
    + intros s Hin. apply in_app_iff in Hin as [Hin|[<-|[]]];
        [specialize (Hbs s Hin)|]; lia.
  - destruct (has_setting id db); [|done]. injection Hw as <-.
    repeat split; cbn; try done.
    + by rewrite map_s_id_patch.
    + intros s Hin. apply in_map_iff in Hin as (s0 & <- & Hin).
      specialize (Hbs s0 Hin). unfold patch_setting. by case_bool_decide.
  - injection Hw as <-. repeat split; cbn; try done.
    + by eapply NoDup_map_snoc.
    + intros v Hin. apply in_app_iff in Hin as [Hin|[<-|[]]];
        [specialize (Hbv v Hin)|]; lia.
    + intros s Hin. specialize (Hbs s Hin). lia.
  - destruct (has_version id db); [|done]. injection Hw as <-.
    repeat split; cbn; try done.
    + by apply NoDup_map_filter.
    + intros v Hin. apply filter_In in Hin as [Hin _]. by apply Hbv.
  - destruct (liveContent db !! cid); [|done]. by injection Hw as <-.
Qed.

Lemma emptyDB_well_formed : well_formed emptyDB.
Proof. repeat split; cbn; try apply NoDup_nil_2; intros ? []. Qed.

Lemma setEnabled_well_formed (b : bool) (db db' : DB) (log : list Write) :
  well_formed db → setEnabled b db = Some (tt, db', log) → well_formed db'.
Proof.
  intros Hwf. rewrite setEnabled_run.
  destruct (first_setting db "enabled") as [s|] eqn:E; intros [= <- <-].
  - apply (apply_write_well_formed (PatchSetting (s_id s) b) db); [done..|].
    cbn. by rewrite (has_setting_of_first _ _ _ E).
  - by apply (apply_write_well_formed
                (InsertSetting (mkSetting (nextId db) "enabled" b)) db).
Qed.

(** ** Recording snapshots *)

Lemma snapshot_count_snoc (ct ct' : ContentType) (cid cid' : string)
    (l : list VersionDoc) (d : VersionDoc) :
  contentType d = ct → contentId d = cid →
  length (List.filter (matches_content ct' cid') (l ++ [d])) =
  length (List.filter (matches_content ct' cid') l) +
  (if bool_decide (ct = ct' ∧ cid = cid') then 1 else 0).
Proof.
  intros <- <-. rewrite List.filter_app, length_app. f_equal. cbn.
  unfold matches_content.
  destruct (decide (contentType d = ct')) as [E1|E1],
           (decide (contentId d = cid')) as [E2|E2];
    rewrite ?(bool_decide_eq_true_2 _ E1), ?(bool_decide_eq_false_2 _ E1),
            ?(bool_decide_eq_true_2 _ E2), ?(bool_decide_eq_false_2 _ E2); cbn;
    [rewrite bool_decide_eq_true_2 by done
    |rewrite bool_decide_eq_false_2 by tauto..]; done.
Qed.

(** C3. With the gate off ([isEnabled] answers [false]) [createVersion]
    returns none and leaves the database, hence every snapshot count,
    unchanged.  With the gate on it performs exactly one insert, of a
    snapshot holding the given fields and [createdAt = now], returns that
    snapshot's id, and raises the snapshot count of that content key by
    one, leaving every other count, the settings and the live content
    alone. *)
Theorem createVersion_gated (now : Z) (ct : ContentType)
    (cid sl ti co : string) (de : option string) (src : Source) (db : DB) :
  (gate db = false →
     createVersion now ct cid sl ti co de src db = Some (None, db, [])) ∧
  (gate db = true →
     ∃ d db',
       createVersion now ct cid sl ti co de src db =
         Some (Some (v_id d), db', [InsertVersion d]) ∧
       v_fields d = mkFields ct cid sl ti co de now src ∧
       contentVersions db' = contentVersions db ++ [d] ∧
       snapshot_count ct cid db' = S (snapshot_count ct cid db) ∧
       (∀ ct' cid', ¬ (ct = ct' ∧ cid = cid') →
          snapshot_count ct' cid' db' = snapshot_count ct' cid' db) ∧
       versionControlSettings db' = versionControlSettings db ∧
       liveContent db' = liveContent db).
Proof.
  split; intros Hg; run_handler; fold (gate db); rewrite Hg; cbn [negb].
  - done.
  - cbn [apply_write]. eexists (created_version now ct cid sl ti co de src db), _.
    split; [reflexivity|]. split; [done|]. split; [done|].
    unfold snapshot_count. cbn [contentVersions].
    split; [|split; [|done]].
    + rewrite (snapshot_count_snoc ct ct cid cid) by done.
      rewrite bool_decide_eq_true_2 by done. lia.
    + intros ct' cid' Hne. rewrite (snapshot_count_snoc ct ct' cid cid') by done.
      rewrite bool_decide_eq_false_2 by done. lia.
Qed.

(** The identity [createVersion] returns is new: no stored snapshot
    carries it, and the database stays well formed. *)
Lemma createVersion_fresh (now : Z) (ct : ContentType)
    (cid sl ti co : string) (de : option string) (src : Source)
    (db db' : DB) (id : Id) (log : list Write) :
  well_formed db →
  createVersion now ct cid sl ti co de src db = Some (Some id, db', log) →
  stored_version db id = None ∧ well_formed db'.
Proof.
  intros Hwf. run_handler. fold (gate db). destruct (gate db); cbn [negb]; [|done].
  cbn [apply_write]. intros [= <- <- <-]. split.
  - destruct (stored_version db (nextId db)) as [v|] eqn:E; [|done].
    unfold stored_version in E. apply find_some in E as [Hin Hid].
    apply bool_decide_eq_true in Hid. destruct Hwf as [_ [Hb _]].
    specialize (Hb v Hin). unfold Id in *. lia.
  - by apply (apply_write_well_formed
                (InsertVersion (created_version now ct cid sl ti co de src db)) db).
Qed.

(** ** Restore *)

Lemma restoreVersion_run (now_backup now_patch : Z) (id : Id) (db : DB) :
  restoreVersion now_backup now_patch id db =
  match stored_version db id with
  | None => Some ({| success := false; message := "Version not found" |}, db, [])
  | Some v =>
      match liveContent db !! contentId v with
      | None =>
          Some ({| success := false; message := "Original content not found" |},
                db, [])
      | Some c =>
          Some (restored,
                mkDB (versionControlSettings db)
                     (contentVersions db ++ [backup_of now_backup v c db])
                     (<[contentId v := patch_content (restore_patch now_patch v) c]>
                        (liveContent db))
                     (N.succ (nextId db)),
                [InsertVersion (backup_of now_backup v c db);
                 PatchContent (contentId v) (restore_patch now_patch v)])
      end
  end.
Proof.
  run_handler. destruct (stored_version db id) as [v|]; [|done].
  unfold restore_patch.
  destruct (contentType v) eqn:Hct; run_handler;
    (destruct (liveContent db !! contentId v) as [c|] eqn:Hc; [|done]);
    cbn [apply_write liveContent versionControlSettings contentVersions nextId];
    rewrite Hc; unfold backup_of; by rewrite Hct.
Qed.

Lemma stored_version_snoc (db : DB) (id : Id) (v d : VersionDoc) (ss : list SettingDoc)
    (lc : gmap string ContentDoc) (n : Id) :
  stored_version db id = Some v →
  stored_version (mkDB ss (contentVersions db ++ [d]) lc n) id = Some v.
Proof. unfold stored_version. cbn. apply find_app_Some. Qed.

(** C2. A restore of an id that resolves to no stored snapshot answers
    [{success: false, message: "Version not found"}]; a restore of a
    snapshot whose live item is gone answers
    [{success: false, message: "Original content not found"}]; either
    way no write is issued and the database is unchanged. *)
Theorem restoreVersion_not_found (now_backup now_patch : Z) (id : Id) (db : DB) :
  (stored_version db id = None →
     restoreVersion now_backup now_patch id db =
       Some ({| success := false; message := "Version not found" |}, db, [])) ∧
  (∀ v, stored_version db id = Some v →
        liveContent db !! contentId v = None →
     restoreVersion now_backup now_patch id db =
       Some ({| success := false; message := "Original content not found" |},
             db, [])).
Proof.
  split.
  - intros H. by rewrite restoreVersion_run, H.
  - intros v Hv Hc. by rewrite restoreVersion_run, Hv, Hc.
Qed.

(** C1. When the id resolves to a stored snapshot [v] whose live item [c]
    exists, a restore succeeds whatever the gate says and issues exactly
    two writes, in this order: the insert of one backup snapshot with
    source [restore], the live item's title, content and description and
    [v]'s slug, content type and content id; then the patch of the live
    item.  After the insert alone the live content is still untouched;
    after the patch the live item carries [v]'s title and content and the
    [lastSyncedAt] stamp. *)
Theorem restoreVersion_backup_then_overwrite
    (now_backup now_patch : Z) (id : Id) (db : DB) (v : VersionDoc) (c : ContentDoc) :
  stored_version db id = Some v →
  liveContent db !! contentId v = Some c →
  ∃ backup patch db_mid db' c',
    restoreVersion now_backup now_patch id db =
      Some ({| success := true; message := "Version restored successfully" |},
            db', [InsertVersion backup; PatchContent (contentId v) patch]) ∧
    source backup = Restore ∧
    title backup = c_title c ∧
    content backup = c_content c ∧
    description backup = c_description c ∧
    slug backup = slug v ∧
    contentType backup = contentType v ∧
    contentId backup = contentId v ∧
    createdAt backup = now_backup ∧
    contentVersions db' = contentVersions db ++ [backup] ∧
    apply_write (InsertVersion backup) db = Some db_mid ∧
    contentVersions db_mid = contentVersions db ++ [backup] ∧
    liveContent db_mid = liveContent db ∧
    apply_write (PatchContent (contentId v) patch) db_mid = Some db' ∧
    liveContent db' !! contentId v = Some c' ∧
    c_title c' = title v ∧
    c_content c' = content v ∧
    c_lastSyncedAt c' = Some now_patch ∧
    versionControlSettings db' = versionControlSettings db.
Proof.
  intros Hv Hc. rewrite restoreVersion_run, Hv, Hc.
  eexists (backup_of now_backup v c db), (restore_patch now_patch v), _, _, _.
  split; [reflexivity|]. do 9 (split; [reflexivity|]).
  split; [reflexivity|]. do 2 (split; [reflexivity|]).
  split; [cbn; by rewrite Hc|].
  split; [cbn; apply lookup_insert_eq|]. done.
Qed.

Lemma js_or_empty (x : option string) :
  js_or x EmptyString = match x with Some d => d | None => EmptyString end.
Proof. by destruct x as [[|a s]|]. Qed.

(** C10. On a successful restore the patch depends on the snapshot's
    content type.  For a post it always carries a description, the
    snapshot's or the empty string when that is absent or empty, so the
    live description after the restore never depends on the one before.
    For a page it carries none, and the live description stays what it
    was.  In both cases title, content and [lastSyncedAt] are written,
    every other field of the live item is kept, and no other live item
    changes. *)
Theorem restoreVersion_fields_written
    (now_backup now_patch : Z) (id : Id) (db : DB) (v : VersionDoc) (c : ContentDoc) :
  stored_version db id = Some v →
  liveContent db !! contentId v = Some c →
  ∃ backup patch db' c',
    restoreVersion now_backup now_patch id db =
      Some (restored, db', [InsertVersion backup; PatchContent (contentId v) patch]) ∧
    liveContent db' !! contentId v = Some c' ∧
    c_title c' = title v ∧
    c_content c' = content v ∧
    c_lastSyncedAt c' = Some now_patch ∧
    c_rest c' = c_rest c ∧
    (contentType v = Post →
       p_description patch =
         Some (match description v with Some d => d | None => EmptyString end) ∧
       c_description c' =
         Some (match description v with Some d => d | None => EmptyString end) ∧
       (description v = None ∨ description v = Some EmptyString →
          c_description c' = Some EmptyString)) ∧
    (contentType v = Page →
       p_description patch = None ∧
       c_description c' = c_description c) ∧
    (∀ cid, cid ≠ contentId v → liveContent db' !! cid = liveContent db !! cid).
Proof.
  intros Hv Hc. rewrite restoreVersion_run, Hv, Hc.
  eexists _, _, _, _. split; [reflexivity|].
  split; [cbn; apply lookup_insert_eq|].
  do 4 (split; [reflexivity|]).
  split; [|split].
  - intros Hct. cbn. rewrite Hct, js_or_empty.
    split; [done|]. split; [done|]. by intros [->| ->].
  - intros Hct. cbn. by rewrite Hct.
  - intros cid Hne. cbn. by rewrite lookup_insert_ne.
Qed.

(** C9. Restoring the same snapshot twice in a row succeeds both times and
    appends two backup snapshots with distinct ids: the first holds the
    live item as it was, the second the live item as the first restore
    left it.  After each call the live item carries the snapshot's title
    and content and, for a post, the snapshot's description (the empty
    string when the snapshot has none), while a page keeps the
    description it had; the second call changes nothing of it but the
    [lastSyncedAt] stamp. *)
Theorem restoreVersion_twice
    (nb1 np1 nb2 np2 : Z) (id : Id) (db : DB) (v : VersionDoc) (c : ContentDoc) :
  stored_version db id = Some v →
  liveContent db !! contentId v = Some c →
  ∃ b1 b2 db1 db2 log1 log2 c1 c2,
    restoreVersion nb1 np1 id db = Some (restored, db1, log1) ∧
    restoreVersion nb2 np2 id db1 = Some (restored, db2, log2) ∧
    contentVersions db1 = contentVersions db ++ [b1] ∧
    contentVersions db2 = contentVersions db ++ [b1; b2] ∧
    snapshot_count (contentType v) (contentId v) db2 =
      2 + snapshot_count (contentType v) (contentId v) db ∧
    v_id b1 ≠ v_id b2 ∧
    source b1 = Restore ∧ source b2 = Restore ∧
    title b1 = c_title c ∧ content b1 = c_content c ∧
    description b1 = c_description c ∧
    title b2 = title v ∧ content b2 = content v ∧
    description b2 = c_description c1 ∧
    liveContent db1 !! contentId v = Some c1 ∧
    liveContent db2 !! contentId v = Some c2 ∧
    c_title c1 = title v ∧ c_content c1 = content v ∧
    c_title c2 = title v ∧ c_content c2 = content v ∧
    c_description c2 = c_description c1 ∧
    c_rest c2 = c_rest c1 ∧
    c_lastSyncedAt c1 = Some np1 ∧ c_lastSyncedAt c2 = Some np2 ∧
    (contentType v = Post →
       c_description c1 =
         Some (match description v with Some d => d | None => EmptyString end) ∧
       c_description c2 =
         Some (match description v with Some d => d | None => EmptyString end)) ∧
    (contentType v = Page →
       c_description c1 = c_description c ∧ c_description c2 = c_description c).
Proof.
  intros Hv Hc.
  set (c1 := patch_content (restore_patch np1 v) c).
  set (db1 := mkDB (versionControlSettings db)
                   (contentVersions db ++ [backup_of nb1 v c db])
                   (<[contentId v := c1]> (liveContent db))
                   (N.succ (nextId db))).
  assert (stored_version db1 id = Some v) as Hv1 by by apply stored_version_snoc.
  assert (liveContent db1 !! contentId v = Some c1) as Hc1
    by (cbn; apply lookup_insert_eq).
  exists (backup_of nb1 v c db), (backup_of nb2 v c1 db1).
  eexists db1, _, _, _, c1, _.
  split; [by rewrite restoreVersion_run, Hv, Hc|].
  split; [by rewrite restoreVersion_run, Hv1, Hc1|].
  split; [reflexivity|].
  split; [cbn; by rewrite <- app_assoc|].
  split.
  { unfold snapshot_count. subst db1. cbn [contentVersions].
    rewrite !(snapshot_count_snoc (contentType v) (contentType v)
                (contentId v) (contentId v)) by done.
    rewrite bool_decide_eq_true_2 by done. lia. }
  split; [unfold backup_of, db1; cbn [v_id nextId]; unfold Id; lia|].
  do 8 (split; [reflexivity|]).
  split; [exact Hc1|].
  split; [cbn; apply lookup_insert_eq|].
  do 4 (split; [reflexivity|]).
  split; [cbn; by destruct (contentType v)|].
  do 3 (split; [reflexivity|]).
  split; intros Hct; cbn; rewrite Hct; [|done].
  by rewrite js_or_empty.
Qed.

(** ** Reading the history *)

Lemma substring_0_length (s : string) : substring 0 (String.length s) s = s.
Proof. induction s as [|a s IH]; [done|]. cbn. by rewrite IH. Qed.

Lemma substring_0_prefix (n : nat) (s : string) :
  n ≤ String.length s →
  ∃ rest, s = substring 0 n s +:+ rest ∧ String.length (substring 0 n s) = n.
Proof.
  revert s. induction n as [|n IH]; intros s Hn.
  - exists s. by destruct s.
  - destruct s as [|a s]; cbn in Hn; [lia|].
    destruct (IH s) as (rest & Hs & Hl); [lia|].
    exists rest. split.
    + change (String a s = String a (substring 0 n s +:+ rest)). by f_equal.
    + change (S (String.length (substring 0 n s)) = S n). by rewrite Hl.
Qed.

Lemma append_empty_r (s : string) : s +:+ EmptyString = s.
Proof.
  induction s as [|a s IH]; [done|].
  change (String a (s +:+ EmptyString) = String a s). by rewrite IH.
Qed.

Lemma js_slice_0 (s : string) (n : nat) :
  js_slice s 0 (Z.of_nat n) = substring 0 (Nat.min n (String.length s)) s.
Proof.
  unfold js_slice.
  rewrite (proj2 (Z.ltb_ge 0 0)), (proj2 (Z.ltb_ge (Z.of_nat n) 0)) by lia.
  f_equal; lia.
Qed.

Lemma contentPreview_short (v : VersionDoc) :
  String.length (content v) ≤ 150 → contentPreview (summarize v) = content v.
Proof.
  intros H. cbn [contentPreview summarize].
  change 150%Z with (Z.of_nat 150) at 1. rewrite js_slice_0.
  rewrite Nat.min_r by done. rewrite substring_0_length.
  rewrite (proj2 (Z.ltb_ge _ _)) by lia. apply append_empty_r.
Qed.

Lemma contentPreview_long (v : VersionDoc) :
  150 < String.length (content v) →
  ∃ first rest, content v = first +:+ rest ∧ String.length first = 150 ∧
                contentPreview (summarize v) = first +:+ "...".
Proof.
  intros H. destruct (substring_0_prefix 150 (content v)) as (rest & Hs & Hl); [lia|].
  exists (substring 0 150 (content v)), rest. split; [done|]. split; [done|].
  cbn [contentPreview summarize].
  change 150%Z with (Z.of_nat 150) at 1. rewrite js_slice_0.
  rewrite Nat.min_l by lia.
  by rewrite (proj2 (Z.ltb_lt _ _)) by lia.
Qed.

Lemma getVersionHistory_run (ct : ContentType) (cid : string) (db : DB) :
  getVersionHistory ct cid db =
  Some (map summarize (rev (List.filter (matches_content ct cid) (contentVersions db))),
        db, []).
Proof. done. Qed.

Lemma matches_content_true (ct : ContentType) (cid : string) (v : VersionDoc) :
  matches_content ct cid v = true ↔ contentType v = ct ∧ contentId v = cid.
Proof.
  unfold matches_content. rewrite andb_true_iff, !bool_decide_eq_true. done.
Qed.

(** C5. Every stored snapshot has its summary in the history of its
    content key, and the summary's [contentPreview] is the content itself
    when that is at most 150 characters long, and the first 150 characters
    followed by ["..."] when it is longer. *)
Theorem contentPreview_truncates (db : DB) (v : VersionDoc) :
  In v (contentVersions db) →
  ∃ l, getVersionHistory (contentType v) (contentId v) db = Some (l, db, []) ∧
       In (summarize v) l ∧
       h_id (summarize v) = v_id v ∧
       (String.length (content v) ≤ 150 →
          contentPreview (summarize v) = content v) ∧
       (150 < String.length (content v) →
          ∃ first rest,
            content v = first +:+ rest ∧ String.length first = 150 ∧
            contentPreview (summarize v) = first +:+ "...").
Proof.
  intros Hin. eexists. split; [apply getVersionHistory_run|].
  split.
  { apply in_map, in_rev. rewrite rev_involutive. apply filter_In.
    split; [done|]. by apply matches_content_true. }
  split; [done|].
  split; [apply contentPreview_short | apply contentPreview_long].
Qed.

Lemma StronglySorted_list_filter {A} (R : relation A) (p : A → bool) (l : list A) :
  StronglySorted R l → StronglySorted R (List.filter p l).
Proof.
  induction 1 as [|x l Hl IH Hx]; cbn; [constructor|].
  destruct (p x); [|done]. constructor; [done|].
  rewrite List.Forall_forall in *. intros y Hy. apply Hx.
  by apply filter_In in Hy as [? _].
Qed.

Lemma StronglySorted_rev {A} (R : relation A) (l : list A) :
  StronglySorted R l → StronglySorted (flip R) (rev l).
Proof.
  induction 1 as [|x l Hl IH Hx]; cbn; [constructor|].
  apply StronglySorted_app_2; [|done|repeat constructor].
  intros x1 x2 H1 H2. apply list_elem_of_singleton in H2 as ->. unfold flip.
  rewrite List.Forall_forall in Hx. apply Hx, in_rev. by apply list_elem_of_In.
Qed.

Lemma StronglySorted_map {A B} (R : relation B) (f : A → B) (l : list A) :
  StronglySorted (λ a b, R (f a) (f b)) l → StronglySorted R (map f l).
Proof.
  induction 1 as [|x l Hl IH Hx]; cbn; constructor; [done|].
  rewrite List.Forall_forall in *. intros y Hy.
  apply in_map_iff in Hy as (z & <- & Hz). by apply Hx.
Qed.

(** C4, as the code has it. [getVersionHistory] is a pure read returning
    exactly the summaries of the snapshots of the given content key,
    newest insertion first (the reverse of insertion order); the empty
    list when there is none.  When the stored timestamps never decrease
    from one insertion to the next, the summaries come in non-increasing
    order of [createdAt]; equal timestamps stay adjacent, so the order is
    not strict. *)
Theorem getVersionHistory_newest_first (ct : ContentType) (cid : string) (db : DB) :
  ∃ l,
    getVersionHistory ct cid db = Some (l, db, []) ∧
    l = map summarize (rev (List.filter (matches_content ct cid) (contentVersions db))) ∧
    (∀ v, In v (contentVersions db) → contentType v = ct → contentId v = cid →
          In (summarize v) l) ∧
    (∀ s, In s l →
          ∃ v, In v (contentVersions db) ∧ contentType v = ct ∧ contentId v = cid ∧
               s = summarize v) ∧
    length l = snapshot_count ct cid db ∧
    (snapshot_count ct cid db = 0 → l = []) ∧
    (clock_ordered db →
       StronglySorted (λ a b, (h_createdAt b ≤ h_createdAt a)%Z) l).
Proof.
  eexists. split; [apply getVersionHistory_run|]. split; [done|].
  split.
  { intros v Hin Hct Hcid. apply in_map, in_rev. rewrite rev_involutive.
    apply filter_In. split; [done|]. by apply matches_content_true. }
  split.
  { intros s Hs. apply in_map_iff in Hs as (v & <- & Hv).
    apply in_rev, filter_In in Hv as [Hin Hm].
    apply matches_content_true in Hm as [? ?]. by exists v. }
  split; [by rewrite length_map, length_rev|].
  split.
  { unfold snapshot_count. intros H0.
    by destruct (List.filter _ (contentVersions db)). }
  intros Hord. apply StronglySorted_map.
  apply (StronglySorted_rev (λ a b : VersionDoc, (createdAt a ≤ createdAt b)%Z)).
  by apply StronglySorted_list_filter.
Qed.

(** C4 as stated fails.  Two edits of one post recorded in the same
    millisecond, through [createVersion] with the gate on, leave two
    snapshots with equal [createdAt], and the history is then not
    strictly descending.  And the order returned is that of insertion,
    not of [createdAt]: when the clock was set back between two edits the
    history lists the smaller timestamp first. *)
Lemma getVersionHistory_not_strictly_descending :
  (∃ db1,
     createVersion 1000 Post "p1" "hello" "A" "first" None Dashboard db_gate_on =
       Some (Some 1%N, db1,
             [InsertVersion (mkVersion 1%N
                (mkFields Post "p1" "hello" "A" "first" None 1000%Z Dashboard))]) ∧
     createVersion 1000 Post "p1" "hello" "B" "second" None Dashboard db1 =
       Some (Some 2%N, db_same_instant,
             [InsertVersion (mkVersion 2%N
                (mkFields Post "p1" "hello" "B" "second" None 1000%Z Dashboard))])) ∧
  (∃ l, getVersionHistory Post "p1" db_same_instant = Some (l, db_same_instant, []) ∧
        map h_createdAt l = [1000; 1000]%Z ∧
        ¬ StronglySorted (λ a b, (h_createdAt a > h_createdAt b)%Z) l) ∧
  (∃ l, getVersionHistory Post "p1" db_clock_set_back =
          Some (l, db_clock_set_back, []) ∧
        map h_createdAt l = [1000; 2000]%Z ∧
        ¬ StronglySorted (λ a b, (h_createdAt a > h_createdAt b)%Z) l).
Proof.
  split; [eexists; split; reflexivity|].
  split; eexists; (split; [reflexivity|]); (split; [reflexivity|]);
    intros H; apply StronglySorted_inv in H as [_ HF];
    apply Forall_inv in HF; cbn in HF; lia.
Qed.

(** A clock that does not run backwards keeps the stored timestamps in
    insertion order, whatever handler inserts. *)
Lemma clock_ordered_snoc (l : list VersionDoc) (d : VersionDoc) :
  StronglySorted (λ a b : VersionDoc, (createdAt a ≤ createdAt b)%Z) l →
  (∀ v, In v l → (createdAt v ≤ createdAt d)%Z) →
  StronglySorted (λ a b : VersionDoc, (createdAt a ≤ createdAt b)%Z) (l ++ [d]).
Proof.
  intros Hl Hle. apply StronglySorted_app_2; [|done|repeat constructor].
  intros x1 x2 H1 H2. apply list_elem_of_singleton in H2 as ->.
  by apply Hle, list_elem_of_In.
Qed.

Lemma createVersion_clock_ordered (now : Z) (ct : ContentType)
    (cid sl ti co : string) (de : option string) (src : Source)
    (db db' : DB) (r : option Id) (log : list Write) :
  clock_ordered db →
  (∀ v, In v (contentVersions db) → (createdAt v ≤ now)%Z) →
  createVersion now ct cid sl ti co de src db = Some (r, db', log) →
  clock_ordered db'.
Proof.
  intros Hord Hnow. run_handler. fold (gate db).
  destruct (gate db); cbn [negb apply_write]; intros [= <- <- <-]; [|done].
  by apply clock_ordered_snoc.
Qed.

Lemma restoreVersion_clock_ordered (now_backup now_patch : Z) (id : Id)
    (db db' : DB) (r : RestoreResult) (log : list Write) :
  clock_ordered db →
  (∀ v, In v (contentVersions db) → (createdAt v ≤ now_backup)%Z) →
  restoreVersion now_backup now_patch id db = Some (r, db', log) →
  clock_ordered db'.
Proof.
  intros Hord Hnow. rewrite restoreVersion_run.
  destruct (stored_version db id) as [v|]; [|by intros [= <- <- <-]].
  destruct (liveContent db !! contentId v) as [c|]; intros [= <- <- <-]; [|done].
  by apply clock_ordered_snoc.
Qed.

Lemma restoreVersion_well_formed (now_backup now_patch : Z) (id : Id)
    (db db' : DB) (r : RestoreResult) (log : list Write) :
  well_formed db →
  restoreVersion now_backup now_patch id db = Some (r, db', log) →
  well_formed db'.
Proof.
  intros Hwf. rewrite restoreVersion_run.
  destruct (stored_version db id) as [v|]; [|by intros [= <- <- <-]].
  destruct (liveContent db !! contentId v) as [c|] eqn:Hc; intros [= <- <- <-]; [|done].
  assert (well_formed (mkDB (versionControlSettings db)
            (contentVersions db ++ [backup_of now_backup v c db])
            (liveContent db) (N.succ (nextId db)))) as Hmid
    by by apply (apply_write_well_formed (InsertVersion (backup_of now_backup v c db)) db).
  apply (apply_write_well_formed
           (PatchContent (contentId v) (restore_patch now_patch v)) _ _ Hmid); [done|].
  cbn. by rewrite Hc.
Qed.

(** ** Statistics *)

Lemma Math_min_fold (xs : list Z) (a : Z) :
  fold_left (λ acc x, number_min acc (Num x)) xs (Num a) = Num (fold_left Z.min xs a).
Proof. revert a. induction xs as [|x xs IH]; intros a; [done|]. cbn. apply IH. Qed.


Lemma fold_min_spec (xs : list Z) (a : Z) :
  let m := fold_left Z.min xs a in
  (m = a ∨ In m xs) ∧ (m ≤ a)%Z ∧ ∀ x, In x xs → (m ≤ x)%Z.
Proof.
  revert a. induction xs as [|x xs IH]; intros a; cbn.
  - split; [by left|]. split; [lia|]. by intros ? [].
  - destruct (IH (Z.min a x)) as (Hm & Hle & Hall). split; [|split].
    + destruct Hm as [Hm|Hm]; [|by right; right].
      rewrite Hm. destruct (Z.min_spec a x) as [[_ ->]|[_ ->]]; [by left|by right; left].
    + lia.
    + intros y [<-|Hy]; [lia|by apply Hall].
Qed.


Lemma Math_min_cons (x : Z) (xs : list Z) :
  ∃ m, Math_min (x :: xs) = Num m ∧ In m (x :: xs) ∧
       ∀ y, In y (x :: xs) → (m ≤ y)%Z.
Proof.
  unfold Math_min. cbn [fold_left number_min]. rewrite Math_min_fold.
  destruct (fold_min_spec xs x) as (Hm & Hle & Hall).
  eexists. split; [done|]. split.
  - destruct Hm as [->|Hm]; [by left|by right].
  - intros y [<-|Hy]; [done|by apply Hall].
Qed.



(** ** The retention sweep *)

(** *** The [by_createdAt] index *)

Lemma index_insert_Permutation (v : VersionDoc) (l : list VersionDoc) :
  index_insert v l ≡ₚ v :: l.
Proof.
  induction l as [|w l IH]; [done|]. cbn.
  destruct (createdAt v <? createdAt w)%Z; [done|].
  rewrite IH. apply perm_swap.
Qed.

Lemma by_createdAt_Permutation (l : list VersionDoc) : by_createdAt l ≡ₚ l.
Proof.
  unfold by_createdAt.
  enough (∀ acc, fold_left (λ acc v, index_insert v acc) l acc ≡ₚ acc ++ l) as H
    by apply (H []).
  induction l as [|v l IH]; intros acc; cbn.
  - by rewrite app_nil_r.
  - rewrite IH, index_insert_Permutation. apply Permutation_middle.
Qed.

Lemma index_insert_sorted (v : VersionDoc) (l : list VersionDoc) :
  StronglySorted (λ a b : VersionDoc, (createdAt a ≤ createdAt b)%Z) l →
  StronglySorted (λ a b : VersionDoc, (createdAt a ≤ createdAt b)%Z)
                 (index_insert v l).
Proof.
  induction 1 as [|w l Hl IH Hw]; cbn; [repeat constructor|].
  destruct (createdAt v <? createdAt w)%Z eqn:E.
  - apply Z.ltb_lt in E. constructor; [by constructor|].
    constructor; [lia|]. rewrite List.Forall_forall in *.
    intros y Hy. specialize (Hw y Hy). cbn in Hw. lia.
  - apply Z.ltb_ge in E. constructor; [done|].
    rewrite List.Forall_forall in *. intros y Hy.
    apply (Permutation_in _ (index_insert_Permutation v l)) in Hy as [<-|Hy];
      [done | by apply Hw].
Qed.

Lemma by_createdAt_sorted (l : list VersionDoc) :
  StronglySorted (λ a b : VersionDoc, (createdAt a ≤ createdAt b)%Z) (by_createdAt l).
Proof.
  unfold by_createdAt.
  enough (∀ acc,
    StronglySorted (λ a b : VersionDoc, (createdAt a ≤ createdAt b)%Z) acc →
    StronglySorted (λ a b : VersionDoc, (createdAt a ≤ createdAt b)%Z)
      (fold_left (λ acc v, index_insert v acc) l acc)) as H
    by apply (H []), SSorted_nil.
  induction l as [|v l IH]; intros acc Hacc; cbn; [done|].
  by apply IH, index_insert_sorted.
Qed.

(** Equal timestamps keep their creation order in the index. *)
Lemma by_createdAt_clock_ordered (l : list VersionDoc) :
  StronglySorted (λ a b : VersionDoc, (createdAt a ≤ createdAt b)%Z) l →
  by_createdAt l = l.
Proof.
  unfold by_createdAt.
  enough (∀ acc,
    StronglySorted (λ a b : VersionDoc, (createdAt a ≤ createdAt b)%Z) (acc ++ l) →
    fold_left (λ acc v, index_insert v acc) l acc = acc ++ l) as H
    by apply (H []).
  induction l as [|v l IH]; intros acc Hs; cbn; [by rewrite app_nil_r|].
  assert (index_insert v acc = acc ++ [v]) as ->.
  { apply StronglySorted_app_1_l in Hs as Hacc.
    assert (∀ a, In a acc → (createdAt a ≤ createdAt v)%Z) as Hle.
    { intros a Ha. apply (StronglySorted_app_1_elem_of _ _ _ _ _ Hs).
      - by apply list_elem_of_In.
      - apply list_elem_of_here. }
    clear -Hle. induction acc as [|w acc IH]; [done|]. cbn.
    rewrite (proj2 (Z.ltb_ge _ _)) by (apply Hle; by left).
    f_equal. apply IH. intros a Ha. apply Hle. by right. }
  rewrite IH; rewrite <- app_assoc; done.
Qed.

Lemma Permutation_list_filter {A} (p : A → bool) (l l' : list A) :
  l ≡ₚ l' → List.filter p l ≡ₚ List.filter p l'.
Proof.
  induction 1 as [|x l l' Hl IH|x y l|l l' l'' H1 IH1 H2 IH2]; cbn.
  - done.
  - destruct (p x); [by constructor | done].
  - destruct (p x), (p y); try done. apply perm_swap.
  - by etrans.
Qed.

Lemma NoDup_map_inj_in {A B} (f : A → B) (l : list A) (x y : A) :
  NoDup (map f l) → In x l → In y l → f x = f y → x = y.
Proof.
  induction l as [|z l IH]; [done|]. cbn. intros Hnd Hx Hy Hf.
  apply NoDup_cons in Hnd as [Hz Hnd].
  destruct Hx as [->|Hx], Hy as [->|Hy]; [done| | |by apply IH].
  - exfalso. apply Hz. rewrite Hf. apply list_elem_of_In. by apply in_map.
  - exfalso. apply Hz. rewrite <- Hf. apply list_elem_of_In. by apply in_map.
Qed.

(** *** Deleting a batch *)

Lemma without_ids_nil (vs : list VersionDoc) : without_ids [] vs = vs.
Proof.
  unfold without_ids. induction vs as [|v vs IH]; [done|]. cbn.
  rewrite bool_decide_eq_true_2 by apply not_elem_of_nil. by rewrite IH.
Qed.

Lemma without_ids_cons (id : Id) (ids : list Id) (vs : list VersionDoc) :
  without_ids ids (List.filter (λ v, negb (bool_decide (v_id v = id))) vs) =
  without_ids (id :: ids) vs.
Proof.
  unfold without_ids. induction vs as [|v vs IH]; [done|]. cbn.
  destruct (decide (v_id v = id)) as [E|E].
  - rewrite (bool_decide_eq_true_2 _ E). cbn.
    rewrite (bool_decide_eq_false_2 (v_id v ∉ id :: ids)); [done|].
    intros H. apply H. rewrite E. apply list_elem_of_here.
  - rewrite (bool_decide_eq_false_2 _ E). cbn. rewrite IH.
    destruct (decide (v_id v ∈ ids)) as [Hin|Hin].
    + rewrite !bool_decide_eq_false_2; [done| |by intros H; apply H].
      intros H. apply H. by apply list_elem_of_further.
    + rewrite !bool_decide_eq_true_2; [done| |done].
      intros [?|?]%elem_of_cons; done.
Qed.

Lemma has_version_true (id : Id) (db : DB) :
  has_version id db = true ↔ ∃ v, In v (contentVersions db) ∧ v_id v = id.
Proof.
  unfold has_version. rewrite existsb_exists.
  split; intros (v & Hin & Hv); exists v; split; try done.
  - by apply bool_decide_eq_true in Hv.
  - by apply bool_decide_eq_true.
Qed.

Lemma promise_all_delete (ds : list VersionDoc) (db : DB) :
  NoDup (map v_id ds) →
  (∀ d, In d ds → has_version (v_id d) db = true) →
  promise_all (λ version : VersionDoc, db_delete_version (v_id version)) ds db =
  Some (map (λ _, tt) ds,
        mkDB (versionControlSettings db)
             (without_ids (map v_id ds) (contentVersions db))
             (liveContent db) (nextId db),
        map (λ d, DeleteVersion (v_id d)) ds).
Proof.
  unfold db_delete_version. revert db.
  induction ds as [|d ds IH]; intros db Hnd Hall.
  - cbn. rewrite without_ids_nil. by destruct db.
  - cbn [promise_all map]. apply NoDup_cons in Hnd as [Hd Hnd].
    unfold mbind, Handler_bind, db_write at 1.
    cbn [apply_write]. rewrite (Hall d) by by left.
    rewrite IH; [|done|].
    + unfold mret, Handler_ret.
      cbn [versionControlSettings contentVersions liveContent nextId app].
      by rewrite without_ids_cons, app_nil_r.
    + intros d' Hd'. apply has_version_true.
      destruct (proj1 (has_version_true _ _) (Hall d' (or_intror Hd')))
        as (v & Hin & Hv).
      exists v. split; [|done]. cbn. apply filter_In. split; [done|].
      apply negb_true_iff, bool_decide_eq_false. intros E. apply Hd.
      rewrite <- E, Hv. apply list_elem_of_In. by apply in_map.
Qed.

(** *** One sweep *)

Lemma In_take {A} (n : nat) (l : list A) (x : A) : In x (take n l) → In x l.
Proof. intros H. rewrite <- (take_drop n l). apply in_or_app. by left. Qed.

Lemma sweep_batch_In (now : Z) (db : DB) (v : VersionDoc) :
  In v (sweep_batch now db) →
  In v (contentVersions db) ∧ eligible now v = true.
Proof.
  unfold sweep_batch. intros H%In_take. apply filter_In in H as [H He].
  split; [|done]. by apply (Permutation_in _ (by_createdAt_Permutation _)).
Qed.

Lemma sweep_index_NoDup (now : Z) (db : DB) :
  NoDup (map v_id (contentVersions db)) →
  NoDup (map v_id (List.filter (eligible now) (by_createdAt (contentVersions db)))).
Proof.
  intros Hnd. apply NoDup_map_filter.
  by rewrite (Permutation_map v_id (by_createdAt_Permutation (contentVersions db))).
Qed.

Lemma sweep_batch_NoDup (now : Z) (db : DB) :
  NoDup (map v_id (contentVersions db)) → NoDup (map v_id (sweep_batch now db)).
Proof.
  intros Hnd%(sweep_index_NoDup now). unfold sweep_batch.
  rewrite <- (take_drop 1000 (List.filter _ _)), map_app in Hnd.
  by apply NoDup_app in Hnd as [? _].
Qed.

Lemma cleanupOldVersions_run (now : Z) (db : DB) :
  NoDup (map v_id (contentVersions db)) →
  cleanupOldVersions now db =
  Some (length (sweep_batch now db),
        mkDB (versionControlSettings db)
             (without_ids (map v_id (sweep_batch now db)) (contentVersions db))
             (liveContent db) (nextId db),
        map (λ d, DeleteVersion (v_id d)) (sweep_batch now db)).
Proof.
  intros Hnd. unfold cleanupOldVersions, query_by_createdAt_lt_take, db_read.
  unfold mbind at 1. unfold Handler_bind at 1.
  change (take 1000 _) with (sweep_batch now db).
  unfold mbind, Handler_bind. rewrite promise_all_delete.
  - unfold mret, Handler_ret. cbn [app]. by rewrite app_nil_r.
  - by apply sweep_batch_NoDup.
  - intros d Hd%sweep_batch_In. apply has_version_true. exists d. tauto.
Qed.

Lemma without_ids_In (ds vs : list VersionDoc) (v : VersionDoc) :
  NoDup (map v_id vs) → (∀ d, In d ds → In d vs) →
  In v (without_ids (map v_id ds) vs) ↔ In v vs ∧ ¬ In v ds.
Proof.
  intros Hnd Hsub. unfold without_ids. rewrite filter_In, bool_decide_eq_true.
  split; intros [Hin Hn]; (split; [done|]).
  - intros Hd. apply Hn, list_elem_of_In. by apply in_map.
  - intros Hid%list_elem_of_In. apply in_map_iff in Hid as (d & Hid & Hd).
    apply Hn. by rewrite <- (NoDup_map_inj_in v_id vs d v Hnd (Hsub d Hd) Hin Hid).
Qed.

Lemma backlog_index (now : Z) (db : DB) :
  length (List.filter (eligible now) (by_createdAt (contentVersions db))) =
  backlog now db.
Proof.
  unfold backlog. apply Permutation_length, Permutation_list_filter,
    by_createdAt_Permutation.
Qed.

Lemma sweep_batch_length (now : Z) (db : DB) :
  length (sweep_batch now db) = Nat.min 1000 (backlog now db).
Proof. unfold sweep_batch. by rewrite length_take, backlog_index. Qed.

Lemma without_ids_all (ds : list VersionDoc) : without_ids (map v_id ds) ds = [].
Proof.
  unfold without_ids.
  enough (∀ l, (∀ d, In d l → In d ds) →
               List.filter (λ v, bool_decide (v_id v ∉ map v_id ds)) l = []) as H
    by by apply H.
  induction l as [|d l IH]; intros Hsub; [done|]. cbn.
  rewrite bool_decide_eq_false_2.
  - apply IH. intros d' Hd'. apply Hsub. by right.
  - intros H. apply H, list_elem_of_In, in_map, Hsub. by left.
Qed.

Lemma without_ids_disjoint (ds l : list VersionDoc) :
  (∀ v, In v l → ¬ In (v_id v) (map v_id ds)) → without_ids (map v_id ds) l = l.
Proof.
  unfold without_ids. induction l as [|v l IH]; intros Hd; [done|]. cbn.
  rewrite bool_decide_eq_true_2.
  - f_equal. apply IH. intros w Hw. apply Hd. by right.
  - intros H%list_elem_of_In. by apply (Hd v); [left|].
Qed.

Lemma filter_without_ids (p : VersionDoc → bool) (ids : list Id) (l : list VersionDoc) :
  List.filter p (without_ids ids l) = without_ids ids (List.filter p l).
Proof.
  unfold without_ids. induction l as [|v l IH]; [done|]. cbn [List.filter].
  destruct (bool_decide (v_id v ∉ ids)) eqn:E1, (p v) eqn:E2;
    cbn [List.filter]; rewrite ?E1, ?E2; by rewrite IH.
Qed.

Lemma without_ids_take (n : nat) (l : list VersionDoc) :
  NoDup (map v_id l) → without_ids (map v_id (take n l)) l = drop n l.
Proof.
  intros Hnd. rewrite <- (take_drop n l) at 2.
  rewrite <- (take_drop n l), map_app in Hnd.
  apply NoDup_app in Hnd as (_ & Hdisj & _).
  unfold without_ids. rewrite List.filter_app.
  fold (without_ids (map v_id (take n l)) (take n l)).
  fold (without_ids (map v_id (take n l)) (drop n l)).
  rewrite without_ids_all, without_ids_disjoint; [done|].
  intros v Hv Hid. apply (Hdisj (v_id v)); apply list_elem_of_In; [done|].
  by apply in_map.
Qed.

Lemma backlog_after_sweep (now : Z) (db : DB) :
  NoDup (map v_id (contentVersions db)) →
  length (List.filter (eligible now)
            (without_ids (map v_id (sweep_batch now db)) (contentVersions db))) =
  backlog now db - length (sweep_batch now db).
Proof.
  intros Hnd. pose proof (sweep_index_NoDup now db Hnd) as HndS.
  rewrite filter_without_ids.
  assert (List.filter (eligible now) (contentVersions db) ≡ₚ
          List.filter (eligible now) (by_createdAt (contentVersions db))) as Hperm.
  { apply Permutation_list_filter. symmetry. apply by_createdAt_Permutation. }
  unfold without_ids. rewrite (Permutation_list_filter _ _ _ Hperm).
  fold (without_ids (map v_id (sweep_batch now db))
          (List.filter (eligible now) (by_createdAt (contentVersions db)))).
  unfold sweep_batch. rewrite without_ids_take by done.
  rewrite length_drop, length_take, backlog_index. lia.
Qed.

Lemma sweep_batch_oldest (now : Z) (db : DB) (d e : VersionDoc) :
  In d (sweep_batch now db) →
  In e (contentVersions db) → eligible now e = true → ¬ In e (sweep_batch now db) →
  (createdAt d ≤ createdAt e)%Z.
Proof.
  unfold sweep_batch. intros Hd He Helig Hne.
  pose proof (StronglySorted_list_filter _ (eligible now) _
                (by_createdAt_sorted (contentVersions db))) as Hs.
  assert (In e (List.filter (eligible now) (by_createdAt (contentVersions db))))
    as HeS.
  { apply filter_In. split; [|done].
    apply (Permutation_in _ (Permutation_sym (by_createdAt_Permutation _)) He). }
  revert Hd Hne Hs HeS.
  generalize (List.filter (eligible now) (by_createdAt (contentVersions db))).
  intros l Hd Hne Hs HeS. rewrite <- (take_drop 1000 l) in Hs, HeS.
  apply in_app_or in HeS as [HeS|HeS]; [done|].
  apply (StronglySorted_app_1_elem_of _ _ _ _ _ Hs); by apply list_elem_of_In.
Qed.

Lemma cleanupOldVersions_well_formed (now : Z) (db db' : DB) (k : nat)
    (log : list Write) :
  well_formed db → cleanupOldVersions now db = Some (k, db', log) →
  well_formed db'.
Proof.
  intros [[Hv Hs] [Hbv Hbs]]. rewrite cleanupOldVersions_run by done.
  intros [= <- <- <-]. repeat split; cbn; try done.
  - by apply NoDup_map_filter.
  - intros v Hin. apply filter_In in Hin as [Hin _]. by apply Hbv.
Qed.

Lemma cleanupOldVersions_clock_ordered (now : Z) (db db' : DB) (k : nat)
    (log : list Write) :
  well_formed db → clock_ordered db →
  cleanupOldVersions now db = Some (k, db', log) → clock_ordered db'.
Proof.
  intros [[Hv _] _] Hord. rewrite cleanupOldVersions_run by done.
  intros [= <- <- <-]. by apply StronglySorted_list_filter.
Qed.

(** Sweeps at one clock reading clear the backlog, 1000 at a time. *)
Lemma sweep_clears (n : nat) (now : Z) (db : DB) :
  NoDup (map v_id (contentVersions db)) →
  backlog now db ≤ 1000 * n →
  ∃ db_n log, sweep n now db = Some (backlog now db, db_n, log) ∧
              backlog now db_n = 0.
Proof.
  revert db. induction n as [|n IH]; intros db Hnd Hle.
  - exists db, []. assert (backlog now db = 0) as -> by lia. done.
  - cbn [sweep]. unfold mbind, Handler_bind.
    rewrite cleanupOldVersions_run by done.
    set (db' := mkDB _ _ _ _).
    assert (backlog now db' = backlog now db - length (sweep_batch now db)) as Hb
      by by apply backlog_after_sweep.
    pose proof (sweep_batch_length now db) as Hlen.
    destruct (IH db') as (db_n & log & Hrun & Hzero).
    + by apply NoDup_map_filter.
    + lia.
    + rewrite Hrun. unfold mret, Handler_ret. eexists _, _. split; [|done].
      do 2 f_equal. f_equal. lia.
Qed.

Lemma length_after_sweep (now : Z) (db : DB) :
  NoDup (map v_id (contentVersions db)) →
  length (without_ids (map v_id (sweep_batch now db)) (contentVersions db)) =
  length (contentVersions db) - length (sweep_batch now db).
Proof.
  intros Hnd.
  rewrite <- (List.filter_length (eligible now) (without_ids _ _)).
  rewrite <- (List.filter_length (eligible now) (contentVersions db)).
  rewrite backlog_after_sweep by done. rewrite filter_without_ids.
  rewrite without_ids_disjoint.
  - fold (backlog now db). pose proof (sweep_batch_length now db). lia.
  - intros v [Hv He]%filter_In Hid. apply in_map_iff in Hid as (b & Hid & Hb).
    apply sweep_batch_In in Hb as [Hb Hbe].
    rewrite (NoDup_map_inj_in v_id _ b v Hnd Hb Hv Hid) in Hbe.
    by rewrite Hbe in He.
Qed.

(** Sweeps at any clock readings: among more than [length / 1000] of them
    one leaves no backlog at its own reading. *)
Lemma sweeps_clear (nows : list Z) (db : DB) :
  NoDup (map v_id (contentVersions db)) →
  length (contentVersions db) < 1000 * length nows →
  ∃ before now after ks db_k log,
    nows = before ++ now :: after ∧
    sweeps (before ++ [now]) db = Some (ks, db_k, log) ∧
    backlog now db_k = 0.
Proof.
  revert db. induction nows as [|now rest IH]; intros db Hnd Hlt; [cbn in Hlt; lia|].
  pose proof (cleanupOldVersions_run now db Hnd) as Hrun.
  pose proof (backlog_after_sweep now db Hnd) as Hb.
  pose proof (length_after_sweep now db Hnd) as Hl.
  pose proof (sweep_batch_length now db) as Hk.
  set (db' := mkDB (versionControlSettings db)
                (without_ids (map v_id (sweep_batch now db)) (contentVersions db))
                (liveContent db) (nextId db)) in *.
  destruct (decide (backlog now db ≤ 1000)) as [Hsmall|Hbig].
  - exists [], now, rest. eexists _, db', _. split; [done|].
    split; [|unfold backlog, db'; cbn [contentVersions]; lia].
    cbn [app sweeps]. unfold mbind, Handler_bind. rewrite Hrun. reflexivity.
  - destruct (IH db') as (before & now' & after & ks & db_k & log & -> & Hs & Hz).
    + by apply NoDup_map_filter.
    + unfold db'. cbn [contentVersions]. cbn [length] in Hlt.
      pose proof (List.filter_length_le (eligible now) (contentVersions db)) as Hn.
      fold (backlog now db) in Hn. lia.
    + exists (now :: before), now', after. eexists _, db_k, _. split; [done|].
      split; [|done]. cbn [app sweeps]. unfold mbind, Handler_bind.
      rewrite Hrun. fold db'. rewrite Hs. reflexivity.
Qed.

Lemma eligible_spec (now : Z) (v : VersionDoc) :
  eligible now v = true ↔ (createdAt v < now - 259200000)%Z.
Proof. unfold eligible. change RETENTION_MS with 259200000%Z. apply Z.ltb_lt. Qed.

(** C6. On a well-formed database a sweep at time [now] succeeds and
    deletes only stored snapshots with [createdAt < now - 3 days]; a
    snapshot at or after the cutoff is kept.  It deletes [min 1000
    backlog] snapshots, none younger than an eligible one it leaves
    behind, returns their number and issues one delete per snapshot.
    The other snapshots stay as they were and in the same order;
    settings, live content and the id counter are untouched.  The
    backlog shrinks by the number deleted, and [n] sweeps at one clock
    reading clear a backlog of at most [1000 * n]; at arbitrary clock
    readings, among more sweeps than a thousandth of the stored
    snapshots one leaves no backlog at its own reading. *)
Theorem cleanupOldVersions_bounded_sweep (now : Z) (db : DB) :
  well_formed db →
  ∃ deleted db',
    cleanupOldVersions now db =
      Some (length deleted, db', map (λ d, DeleteVersion (v_id d)) deleted) ∧
    (∀ v, In v deleted →
          In v (contentVersions db) ∧ (createdAt v < now - 259200000)%Z) ∧
    (∀ v, In v (contentVersions db) → (now - 259200000 ≤ createdAt v)%Z →
          In v (contentVersions db')) ∧
    length deleted ≤ 1000 ∧
    length deleted = Nat.min 1000 (backlog now db) ∧
    (∀ d e, In d deleted →
            In e (contentVersions db) → (createdAt e < now - 259200000)%Z →
            ¬ In e deleted → (createdAt d ≤ createdAt e)%Z) ∧
    (∀ v, In v (contentVersions db') ↔ In v (contentVersions db) ∧ ¬ In v deleted) ∧
    contentVersions db' =
      List.filter (λ v, bool_decide (v_id v ∉ map v_id deleted)) (contentVersions db) ∧
    versionControlSettings db' = versionControlSettings db ∧
    liveContent db' = liveContent db ∧
    nextId db' = nextId db ∧
    backlog now db' = backlog now db - length deleted ∧
    (∀ n, backlog now db ≤ 1000 * n →
          ∃ db_n log, sweep n now db = Some (backlog now db, db_n, log) ∧
                      backlog now db_n = 0) ∧
    (∀ nows, length (contentVersions db) < 1000 * length nows →
          ∃ before t after ks db_k log,
            nows = before ++ t :: after ∧
            sweeps (before ++ [t]) db = Some (ks, db_k, log) ∧
            backlog t db_k = 0).
Proof.
  intros [[Hnd _] _]. exists (sweep_batch now db). eexists.
  split; [by apply cleanupOldVersions_run|].
  cbn [contentVersions versionControlSettings liveContent nextId].
  assert (∀ v, In v (without_ids (map v_id (sweep_batch now db)) (contentVersions db))
               ↔ In v (contentVersions db) ∧ ¬ In v (sweep_batch now db)) as Hrest.
  { intros v. apply without_ids_In; [done|]. by intros d [? _]%sweep_batch_In. }
  split.
  { intros v [Hin He]%sweep_batch_In. split; [done|]. by apply eligible_spec. }
  split.
  { intros v Hin Hge. apply Hrest. split; [done|].
    intros [_ He%eligible_spec]%sweep_batch_In. lia. }
  split; [rewrite sweep_batch_length; lia|].
  split; [apply sweep_batch_length|].
  split.
  { intros d e Hd He Helig Hne.
    apply (sweep_batch_oldest now db d e); try done. by apply eligible_spec. }
  split; [exact Hrest|].
  split; [done|]. do 3 (split; [done|]).
  split; [by apply backlog_after_sweep|].
  split; [intros n Hn; by apply sweep_clears|].
  intros nows Hn. by apply sweeps_clear.
Qed.

(** ** The statements at concrete databases *)

Ltac concrete_well_formed :=
  repeat split; cbn;
  [ compute_done
  | compute_done
  | intros ? H; repeat (destruct H as [<-|H]; [reflexivity|]); destruct H
  | intros ? H; repeat (destruct H as [<-|H]; [reflexivity|]); destruct H ].

Lemma setEnabled_isEnabled_upsert_witness :
  well_formed emptyDB ∧
  isEnabled emptyDB = Some (false, emptyDB, []) ∧
  ∃ db' log, setEnabled true emptyDB = Some (tt, db', log) ∧
             isEnabled db' = Some (true, db', []) ∧
             ∃ log', setEnabled true db' = Some (tt, db', log').
Proof.
  assert (well_formed emptyDB) as Hwf by concrete_well_formed.
  split; [exact Hwf|].
  destruct (setEnabled_isEnabled_upsert true emptyDB Hwf)
    as (Hread & _ & _ & db' & log & Hset & Hread' & Hagain & _).
  split; [exact Hread|]. exists db', log. repeat split; assumption.
Defined.

Lemma createVersion_gated_witness :
  gate db_site = false ∧
  createVersion 5000 Post "p1" "hello" "C" "third" None Dashboard db_site =
    Some (None, db_site, []) ∧
  gate db_gate_on = true ∧
  ∃ d db', createVersion 5000 Post "p1" "hello" "C" "third" None Dashboard db_gate_on =
             Some (Some (v_id d), db', [InsertVersion d]) ∧
           snapshot_count Post "p1" db' = S (snapshot_count Post "p1" db_gate_on).
Proof.
  split; [reflexivity|].
  split.
  { apply (proj1 (createVersion_gated 5000 Post "p1" "hello" "C" "third" None
                    Dashboard db_site)). reflexivity. }
  split; [reflexivity|].
  destruct (proj2 (createVersion_gated 5000 Post "p1" "hello" "C" "third" None
                     Dashboard db_gate_on) eq_refl)
    as (d & db' & Hrun & _ & _ & Hcount & _).
  exists d, db'. split; assumption.
Defined.

Lemma restoreVersion_not_found_witness :
  stored_version db_site 9%N = None ∧
  restoreVersion 5000 5001 9%N db_site =
    Some ({| success := false; message := "Version not found" |}, db_site, []) ∧
  stored_version db_site 3%N = Some snapshot_3 ∧
  liveContent db_site !! contentId snapshot_3 = None ∧
  restoreVersion 5000 5001 3%N db_site =
    Some ({| success := false; message := "Original content not found" |},
          db_site, []).
Proof.
  split; [reflexivity|].
  split; [apply (proj1 (restoreVersion_not_found 5000 5001 9%N db_site)); reflexivity|].
  split; [reflexivity|]. split; [reflexivity|].
  apply (proj2 (restoreVersion_not_found 5000 5001 3%N db_site) snapshot_3);
    reflexivity.
Defined.

Lemma restoreVersion_backup_then_overwrite_witness :
  stored_version db_site 1%N = Some snapshot_1 ∧
  liveContent db_site !! contentId snapshot_1 = Some post_p1 ∧
  gate db_site = false ∧
  ∃ backup patch db',
    restoreVersion 5000 5001 1%N db_site =
      Some ({| success := true; message := "Version restored successfully" |},
            db', [InsertVersion backup; PatchContent "p1" patch]) ∧
    title backup = "B" ∧ source backup = Restore ∧
    contentVersions db' = contentVersions db_site ++ [backup].
Proof.
  split; [reflexivity|]. split; [reflexivity|]. split; [reflexivity|].
  destruct (restoreVersion_backup_then_overwrite 5000 5001 1%N db_site
              snapshot_1 post_p1 eq_refl eq_refl)
    as (backup & patch & db_mid & db' & c' & Hrun & Hsrc & Htitle & _ & _ & _ & _
        & _ & _ & Hvs & _).
  exists backup, patch, db'. repeat split; assumption.
Defined.

Lemma restoreVersion_twice_witness :
  stored_version db_teaser 1%N = Some snapshot_teaser ∧
  liveContent db_teaser !! contentId snapshot_teaser = Some post_p1 ∧
  contentType snapshot_teaser = Post ∧
  ∃ b1 b2 db1 db2 log1 log2 c1 c2,
    restoreVersion 5000 5001 1%N db_teaser = Some (restored, db1, log1) ∧
    restoreVersion 6000 6001 1%N db1 = Some (restored, db2, log2) ∧
    contentVersions db2 = contentVersions db_teaser ++ [b1; b2] ∧
    v_id b1 ≠ v_id b2 ∧
    title b1 = "B" ∧ title b2 = "A" ∧
    liveContent db1 !! "p1" = Some c1 ∧ liveContent db2 !! "p1" = Some c2 ∧
    c_description post_p1 = Some "about B" ∧
    c_description c1 = Some "teaser" ∧ c_description c2 = Some "teaser".
Proof.
  split; [reflexivity|]. split; [reflexivity|]. split; [reflexivity|].
  destruct (restoreVersion_twice 5000 5001 6000 6001 1%N db_teaser
              snapshot_teaser post_p1 eq_refl eq_refl)
    as (b1 & b2 & db1 & db2 & log1 & log2 & c1 & c2 & H1 & H2 & _ & Hvs & _
        & Hne & _ & _ & Ht1 & _ & _ & Ht2 & _ & _ & Hc1 & Hc2 & _ & _ & _ & _
        & _ & _ & _ & _ & Hpost & _).
  destruct (Hpost eq_refl) as [Hd1 Hd2].
  exists b1, b2, db1, db2, log1, log2, c1, c2.
  repeat split; try assumption.
Defined.

Lemma restoreVersion_fields_written_witness :
  (stored_version db_site 1%N = Some snapshot_1 ∧
   liveContent db_site !! contentId snapshot_1 = Some post_p1 ∧
   contentType snapshot_1 = Post ∧
   ∃ backup patch db' c',
     restoreVersion 5000 5001 1%N db_site =
       Some (restored, db', [InsertVersion backup; PatchContent "p1" patch]) ∧
     liveContent db' !! "p1" = Some c' ∧
     c_description c' = Some EmptyString ∧ c_rest c' = c_rest post_p1) ∧
  (stored_version db_site 2%N = Some snapshot_2 ∧
   liveContent db_site !! contentId snapshot_2 = Some page_about ∧
   contentType snapshot_2 = Page ∧
   ∃ backup patch db' c',
     restoreVersion 5000 5001 2%N db_site =
       Some (restored, db', [InsertVersion backup; PatchContent "about" patch]) ∧
     liveContent db' !! "about" = Some c' ∧
     p_description patch = None ∧
     c_description c' = c_description page_about ∧ c_rest c' = c_rest page_about).
Proof.
  split; (split; [reflexivity|]); (split; [reflexivity|]); (split; [reflexivity|]).
  - destruct (restoreVersion_fields_written 5000 5001 1%N db_site
                snapshot_1 post_p1 eq_refl eq_refl)
      as (backup & patch & db' & c' & Hrun & Hc' & _ & _ & _ & Hrest & Hpost & _).
    exists backup, patch, db', c'. destruct (Hpost eq_refl) as (_ & Hd & _).
    repeat split; assumption.
  - destruct (restoreVersion_fields_written 5000 5001 2%N db_site
                snapshot_2 page_about eq_refl eq_refl)
      as (backup & patch & db' & c' & Hrun & Hc' & _ & _ & _ & Hrest & _ & Hpage & _).
    exists backup, patch, db', c'. destruct (Hpage eq_refl) as (Hp & Hd).
    repeat split; assumption.
Defined.

Lemma contentPreview_truncates_witness :
  In snapshot_1 (contentVersions db_site) ∧
  String.length (content snapshot_1) ≤ 150 ∧
  ∃ l, getVersionHistory Post "p1" db_site = Some (l, db_site, []) ∧
       In (summarize snapshot_1) l ∧
       contentPreview (summarize snapshot_1) = "first".
Proof.
  assert (In snapshot_1 (contentVersions db_site)) as Hin by (cbn; tauto).
  assert (String.length (content snapshot_1) ≤ 150) as Hlen by (cbn; lia).
  split; [exact Hin|]. split; [exact Hlen|].
  destruct (contentPreview_truncates db_site snapshot_1 Hin)
    as (l & Hrun & Hl & _ & Hshort & _).
  exists l. split; [exact Hrun|]. split; [exact Hl|]. exact (Hshort Hlen).
Defined.

Lemma getVersionHistory_newest_first_witness :
  clock_ordered db_same_instant ∧
  ∃ l, getVersionHistory Post "p1" db_same_instant = Some (l, db_same_instant, []) ∧
       length l = 2 ∧
       StronglySorted (λ a b, (h_createdAt b ≤ h_createdAt a)%Z) l.
Proof.
  assert (clock_ordered db_same_instant) as Hord.
  { unfold clock_ordered. cbn. repeat constructor; cbn; lia. }
  split; [exact Hord|].
  destruct (getVersionHistory_newest_first Post "p1" db_same_instant)
    as (l & Hrun & _ & _ & _ & Hlen & _ & Hsorted).
  exists l. split; [exact Hrun|]. split; [exact Hlen|]. exact (Hsorted Hord).
Defined.


Lemma cleanupOldVersions_bounded_sweep_witness :
  well_formed db_site ∧
  backlog 259201150 db_site ≤ 1000 * 1 ∧
  ∃ deleted db',
    cleanupOldVersions 259201150 db_site =
      Some (length deleted, db', map (λ d, DeleteVersion (v_id d)) deleted) ∧
    length deleted = 2 ∧
    In snapshot_3 (contentVersions db') ∧
    ∃ db_n log, sweep 1 259201150 db_site = Some (2, db_n, log) ∧
                backlog 259201150 db_n = 0.
Proof.
  assert (well_formed db_site) as Hwf by concrete_well_formed.
  assert (backlog 259201150 db_site ≤ 1000 * 1) as Hle by (vm_compute; lia).
  split; [exact Hwf|]. split; [exact Hle|].
  destruct (cleanupOldVersions_bounded_sweep 259201150 db_site Hwf)
    as (deleted & db' & Hrun & _ & Hkeep & _ & Hlen & _ & _ & _ & _ & _ & _ & _
        & Hsweep & _).
  exists deleted, db'. split; [exact Hrun|]. split; [exact Hlen|].
  split.
  { apply Hkeep; [cbn; tauto | cbn; lia]. }
  exact (Hsweep 1 Hle).
Defined.

(** ** Looking a snapshot up *)

Lemma stored_version_In (db : DB) (id : Id) (v : VersionDoc) :
  stored_version db id = Some v → In v (contentVersions db) ∧ v_id v = id.
Proof.
  unfold stored_version. intros H. apply find_some in H as [Hin Hid].
  split; [done|]. by apply bool_decide_eq_true in Hid.
Qed.

Lemma stored_version_unique (db : DB) (v : VersionDoc) :
  NoDup (map v_id (contentVersions db)) → In v (contentVersions db) →
  stored_version db (v_id v) = Some v.
Proof.
  intros Hnd Hin. destruct (stored_version db (v_id v)) as [w|] eqn:E.
  - apply stored_version_In in E as [Hw Hid].
    by rewrite (NoDup_map_inj_in v_id _ w v Hnd Hw Hin Hid).
  - unfold stored_version in E.
    pose proof (find_none _ _ E v Hin) as Hf. cbn in Hf.
    by rewrite bool_decide_eq_true_2 in Hf.
Qed.

Lemma getVersion_run (id : Id) (db : DB) :
  getVersion id db = Some (stored_version db id, db, []).
Proof.
  run_handler. destruct (stored_version db id) as [[i []]|]; done.
Qed.

(** [getVersion] is a pure read.  With distinct ids it returns each
    stored snapshot under its own id, field for field; an id no stored
    snapshot carries gives none; and whatever it returns is a stored
    snapshot with the id asked for. *)
Theorem getVersion_lookup (db : DB) :
  NoDup (map v_id (contentVersions db)) →
  (∀ v, In v (contentVersions db) →
        getVersion (v_id v) db = Some (Some v, db, [])) ∧
  (∀ id, (∀ v, In v (contentVersions db) → v_id v ≠ id) →
         getVersion id db = Some (None, db, [])) ∧
  (∀ id v db' log, getVersion id db = Some (Some v, db', log) →
                   In v (contentVersions db) ∧ v_id v = id ∧ db' = db ∧ log = []).
Proof.
  intros Hnd. split; [|split].
  - intros v Hin. by rewrite getVersion_run, stored_version_unique.
  - intros id Hnone. rewrite getVersion_run.
    destruct (stored_version db id) as [v|] eqn:E; [|done].
    apply stored_version_In in E as [Hin Hid]. by destruct (Hnone v Hin).
  - intros id v db' log. rewrite getVersion_run. intros [= E <- <-].
    apply stored_version_In in E as [Hin Hid]. done.
Qed.

Lemma getVersion_lookup_witness :
  NoDup (map v_id (contentVersions db_site)) ∧
  In snapshot_2 (contentVersions db_site) ∧
  getVersion 2%N db_site = Some (Some snapshot_2, db_site, []) ∧
  getVersion 9%N db_site = Some (None, db_site, []).
Proof.
  assert (NoDup (map v_id (contentVersions db_site))) as Hnd by compute_done.
  assert (In snapshot_2 (contentVersions db_site)) as Hin by (cbn; tauto).
  destruct (getVersion_lookup db_site Hnd) as (Hsome & Hnone & _).
  split; [exact Hnd|]. split; [exact Hin|]. split; [exact (Hsome snapshot_2 Hin)|].
  apply Hnone. intros v Hv.
  repeat (destruct Hv as [<-|Hv]; [discriminate|]). destruct Hv.
Defined.

Lemma createVersion_run (now : Z) (ct : ContentType)
    (cid sl ti co : string) (de : option string) (src : Source) (db : DB) :
  createVersion now ct cid sl ti co de src db =
  if gate db
  then Some (Some (nextId db),
             mkDB (versionControlSettings db)
                  (contentVersions db ++ [created_version now ct cid sl ti co de src db])
                  (liveContent db) (N.succ (nextId db)),
             [InsertVersion (created_version now ct cid sl ti co de src db)])
  else Some (None, db, []).
Proof. run_handler. fold (gate db). by destruct (gate db). Qed.

Lemma find_none_all {A} (f : A → bool) (l : list A) :
  (∀ x, In x l → f x = false) → List.find f l = None.
Proof.
  induction l as [|x l IH]; [done|]. intros H. cbn.
  rewrite (H x) by by left. apply IH. intros y Hy. apply H. by right.
Qed.

Lemma stored_version_fresh (db : DB) (d : VersionDoc) (ss : list SettingDoc)
    (lc : gmap string ContentDoc) (n : Id) :
  ids_below_counter db → v_id d = nextId db →
  stored_version (mkDB ss (contentVersions db ++ [d]) lc n) (nextId db) = Some d.
Proof.
  intros [Hb _] Hd. unfold stored_version. cbn [contentVersions].
  rewrite find_app_None.
  - cbn. by rewrite bool_decide_eq_true_2.
  - apply find_none_all. intros v Hv. apply bool_decide_eq_false.
    specialize (Hb v Hv). unfold Id in *. lia.
Qed.

(** What [createVersion] records, [getVersion] gives back: on a
    well-formed database with the gate on, the id returned resolves to a
    snapshot holding exactly the fields passed in and [createdAt = now]. *)
Theorem createVersion_getVersion (now : Z) (ct : ContentType)
    (cid sl ti co : string) (de : option string) (src : Source) (db : DB) :
  well_formed db → gate db = true →
  ∃ id db' log,
    createVersion now ct cid sl ti co de src db = Some (Some id, db', log) ∧
    getVersion id db' =
      Some (Some (mkVersion id (mkFields ct cid sl ti co de now src)), db', []).
Proof.
  intros [_ Hb] Hg. rewrite createVersion_run, Hg.
  eexists _, _, _. split; [reflexivity|].
  rewrite getVersion_run. by rewrite stored_version_fresh.
Qed.

Lemma createVersion_getVersion_witness :
  well_formed db_gate_on ∧ gate db_gate_on = true ∧
  ∃ id db' log,
    createVersion 5000 Post "p1" "hello" "C" "third" (Some "d") Sync db_gate_on =
      Some (Some id, db', log) ∧
    getVersion id db' =
      Some (Some (mkVersion id (mkFields Post "p1" "hello" "C" "third" (Some "d")
                                         5000 Sync)), db', []).
Proof.
  assert (well_formed db_gate_on) as Hwf by concrete_well_formed.
  split; [exact Hwf|]. split; [reflexivity|].
  exact (createVersion_getVersion 5000 Post "p1" "hello" "C" "third" (Some "d")
           Sync db_gate_on Hwf eq_refl).
Defined.

(** ** Snapshots are only ever appended outside the sweep *)

Lemma stored_version_app (db db' : DB) (new : list VersionDoc) (id : Id) (v : VersionDoc) :
  contentVersions db' = contentVersions db ++ new →
  stored_version db id = Some v → stored_version db' id = Some v.
Proof. unfold stored_version. intros ->. apply find_app_Some. Qed.

(** [setEnabled], [createVersion] and [restoreVersion] never delete or
    alter a stored snapshot: the table after the call is the table before
    it followed by at most one new row, every id that resolved keeps
    resolving to the same snapshot, and no delete is issued. *)
Theorem snapshots_append_only (db db' : DB) (log : list Write) :
  ((∃ b, setEnabled b db = Some (tt, db', log)) ∨
   (∃ now ct cid sl ti co de src r,
      createVersion now ct cid sl ti co de src db = Some (r, db', log)) ∨
   (∃ nb np id r, restoreVersion nb np id db = Some (r, db', log))) →
  (∃ new, contentVersions db' = contentVersions db ++ new ∧ length new ≤ 1) ∧
  (∀ id v, stored_version db id = Some v → stored_version db' id = Some v) ∧
  (∀ id, ¬ In (DeleteVersion id) log).
Proof.
  intros H.
  assert ((∃ new, contentVersions db' = contentVersions db ++ new ∧ length new ≤ 1) ∧
          (∀ id, ¬ In (DeleteVersion id) log)) as [(new & Hnew & Hlen) Hlog].
  { assert (∀ l : list VersionDoc, ∃ new, l = l ++ new ∧ length new ≤ 1) as Hsame.
    { intros l. exists []. rewrite app_nil_r. cbn. split; [done|lia]. }
    assert (∀ (l : list VersionDoc) d, ∃ new, l ++ [d] = l ++ new ∧ length new ≤ 1)
      as Hone.
    { intros l d. exists [d]. cbn. split; [done|lia]. }
    destruct H as [(b & H)|[(now & ct & cid & sl & ti & co & de & src & r & H)
                           |(nb & np & id & r & H)]].
    - rewrite setEnabled_run in H.
      destruct (first_setting db "enabled"); injection H as <- <-;
        (split; [apply Hsame|]); intros id [?|[]]; discriminate.
    - rewrite createVersion_run in H. destruct (gate db); injection H as <- <- <-.
      + split; [apply Hone|]. intros id [?|[]]; discriminate.
      + split; [apply Hsame|]. by intros id [].
    - rewrite restoreVersion_run in H.
      destruct (stored_version db id) as [v|];
        [destruct (liveContent db !! contentId v)|]; injection H as <- <- <-.
      + split; [apply Hone|]. intros i [?|[?|[]]]; discriminate.
      + split; [apply Hsame|]. by intros i [].
      + split; [apply Hsame|]. by intros i []. }
  split; [by exists new|]. split; [|done].
  intros id v. by apply (stored_version_app db db' new).
Qed.

Lemma snapshots_append_only_witness :
  ∃ db' log new,
    restoreVersion 5000 5001 1%N db_site = Some (restored, db', log) ∧
    contentVersions db' = contentVersions db_site ++ new ∧
    stored_version db' 2%N = Some snapshot_2.
Proof.
  pose (db' := mkDB (versionControlSettings db_site)
                 (contentVersions db_site ++ [backup_of 5000 snapshot_1 post_p1 db_site])
                 (<["p1" := patch_content (restore_patch 5001 snapshot_1) post_p1]>
                    (liveContent db_site)) 5%N).
  assert (restoreVersion 5000 5001 1%N db_site =
          Some (restored, db',
                [InsertVersion (backup_of 5000 snapshot_1 post_p1 db_site);
                 PatchContent "p1" (restore_patch 5001 snapshot_1)])) as Hrun
    by reflexivity.
  destruct (snapshots_append_only db_site db' _
              (or_intror (or_intror (ex_intro _ 5000%Z (ex_intro _ 5001%Z
                 (ex_intro _ 1%N (ex_intro _ restored Hrun)))))))
    as ((new & Hnew & _) & Hkeep & _).
  eexists db', _, new. split; [exact Hrun|]. split; [exact Hnew|].
  apply Hkeep. reflexivity.
Defined.

(** ** Undoing a restore *)

(** Restoring the backup that a restore created brings the live item
    back: on a well-formed database, after [restoreVersion id] the backup
    is the snapshot stored under the next id; restoring it gives the live
    item the title and content it had before the first restore, keeps
    every field the code never names, and leaves the description of a
    page as it was; the description of a post comes back too, an absent
    one as the empty string. *)
Theorem restoreVersion_undo (nb np nb' np' : Z) (id : Id) (db : DB)
    (v : VersionDoc) (c : ContentDoc) :
  well_formed db →
  stored_version db id = Some v →
  liveContent db !! contentId v = Some c →
  ∃ backup db1 log1 db2 log2 c2,
    restoreVersion nb np id db = Some (restored, db1, log1) ∧
    stored_version db1 (nextId db) = Some backup ∧
    source backup = Restore ∧
    restoreVersion nb' np' (nextId db) db1 = Some (restored, db2, log2) ∧
    liveContent db2 !! contentId v = Some c2 ∧
    c_title c2 = c_title c ∧
    c_content c2 = c_content c ∧
    c_rest c2 = c_rest c ∧
    (contentType v = Page → c_description c2 = c_description c) ∧
    (contentType v = Post →
       c_description c2 =
         Some (match c_description c with Some d => d | None => EmptyString end)).
Proof.
  intros [_ Hb] Hv Hc.
  set (c1 := patch_content (restore_patch np v) c).
  set (backup := backup_of nb v c db).
  set (db1 := mkDB (versionControlSettings db) (contentVersions db ++ [backup])
                   (<[contentId v := c1]> (liveContent db)) (N.succ (nextId db))).
  assert (stored_version db1 (nextId db) = Some backup) as Hv1
    by by apply stored_version_fresh.
  assert (liveContent db1 !! contentId backup = Some c1) as Hc1
    by (cbn; apply lookup_insert_eq).
  exists backup, db1. eexists _, _, _, _.
  split; [by rewrite restoreVersion_run, Hv, Hc|].
  split; [exact Hv1|]. split; [reflexivity|].
  split; [by rewrite restoreVersion_run, Hv1, Hc1|].
  split; [cbn; apply lookup_insert_eq|].
  do 3 (split; [reflexivity|]).
  split; intros Hct; cbn; rewrite Hct; [done|].
  by rewrite js_or_empty.
Qed.

Lemma restoreVersion_undo_witness :
  well_formed db_site ∧
  stored_version db_site 1%N = Some snapshot_1 ∧
  liveContent db_site !! contentId snapshot_1 = Some post_p1 ∧
  ∃ db1 log1 db2 log2 c2,
    restoreVersion 5000 5001 1%N db_site = Some (restored, db1, log1) ∧
    restoreVersion 6000 6001 4%N db1 = Some (restored, db2, log2) ∧
    liveContent db2 !! "p1" = Some c2 ∧
    c_title c2 = "B" ∧ c_content c2 = "second" ∧
    c_description c2 = Some "about B".
Proof.
  assert (well_formed db_site) as Hwf by concrete_well_formed.
  split; [exact Hwf|]. split; [reflexivity|]. split; [reflexivity|].
  destruct (restoreVersion_undo 5000 5001 6000 6001 1%N db_site snapshot_1 post_p1
              Hwf eq_refl eq_refl)
    as (backup & db1 & log1 & db2 & log2 & c2 & H1 & _ & _ & H2 & Hc2 & Ht & Hco
        & _ & _ & Hpost).
  exists db1, log1, db2, log2, c2. repeat split; try assumption.
  exact (Hpost eq_refl).
Defined.

(** ** More on the sweep *)

Lemma backlog_zero_none_eligible (now : Z) (db : DB) (v : VersionDoc) :
  backlog now db = 0 → In v (contentVersions db) → eligible now v = false.
Proof.
  unfold backlog. intros H0 Hin. destruct (eligible now v) eqn:E; [|done].
  assert (In v (List.filter (eligible now) (contentVersions db))) as Hf
    by by apply filter_In.
  by destruct (List.filter _ (contentVersions db)).
Qed.

Lemma cleanupOldVersions_idle (now : Z) (db : DB) :
  backlog now db = 0 → cleanupOldVersions now db = Some (0, db, []).
Proof.
  intros H0. pose proof (sweep_batch_length now db) as Hlen. rewrite H0 in Hlen.
  unfold cleanupOldVersions, query_by_createdAt_lt_take, db_read.
  unfold mbind at 1. unfold Handler_bind at 1.
  change (take 1000 _) with (sweep_batch now db).
  destruct (sweep_batch now db); [done | cbn in Hlen; lia].
Qed.

(** A sweep that finds nothing older than the cutoff returns 0, issues
    no write and leaves the database as it is; and on a well-formed
    database with at most 1000 eligible snapshots a second sweep at the
    same clock reading is such an idle sweep. *)
Theorem cleanupOldVersions_then_idle (now : Z) (db : DB) :
  (backlog now db = 0 → cleanupOldVersions now db = Some (0, db, [])) ∧
  (well_formed db → backlog now db ≤ 1000 →
     ∃ db' log,
       cleanupOldVersions now db = Some (backlog now db, db', log) ∧
       cleanupOldVersions now db' = Some (0, db', [])).
Proof.
  split; [apply cleanupOldVersions_idle|].
  intros [[Hnd _] _] Hle. rewrite cleanupOldVersions_run by done.
  pose proof (sweep_batch_length now db) as Hlen.
  pose proof (backlog_after_sweep now db Hnd) as Hb.
  eexists _, _. split; [do 2 f_equal; f_equal; lia|].
  apply cleanupOldVersions_idle. unfold backlog. cbn [contentVersions]. lia.
Qed.

Lemma cleanupOldVersions_then_idle_witness :
  backlog 1000 db_site = 0 ∧
  cleanupOldVersions 1000 db_site = Some (0, db_site, []) ∧
  well_formed db_site ∧ backlog 259201150 db_site ≤ 1000 ∧
  ∃ db' log,
    cleanupOldVersions 259201150 db_site = Some (2, db', log) ∧
    cleanupOldVersions 259201150 db' = Some (0, db', []).
Proof.
  assert (well_formed db_site) as Hwf by concrete_well_formed.
  assert (backlog 259201150 db_site ≤ 1000) as Hle by (vm_compute; lia).
  split; [reflexivity|].
  split; [exact (proj1 (cleanupOldVersions_then_idle 1000 db_site) eq_refl)|].
  split; [exact Hwf|]. split; [exact Hle|].
  exact (proj2 (cleanupOldVersions_then_idle 259201150 db_site) Hwf Hle).
Defined.

(** After a sweep that could take the whole backlog, the statistics show
    no snapshot older than the cutoff: [oldestVersion] is none or at
    least [now - 3 days], and [totalVersions] has dropped by the number
    the sweep returned. *)
Theorem cleanupOldVersions_then_getStats (now : Z) (db : DB) :
  well_formed db → backlog now db ≤ 1000 →
  ∃ k db' log st,
    cleanupOldVersions now db = Some (k, db', log) ∧
    getStats db' = Some (st, db', []) ∧
    totalVersions st = length (contentVersions db) - k ∧
    (oldestVersion st = None ∨
     ∃ lo, oldestVersion st = Some (Num lo) ∧ (now - 259200000 ≤ lo)%Z).
Proof.
  intros [[Hnd _] _] Hle. rewrite cleanupOldVersions_run by done.
  pose proof (sweep_batch_length now db) as Hlen.
  pose proof (backlog_after_sweep now db Hnd) as Hb.
  pose proof (length_after_sweep now db Hnd) as Hl.
  set (db' := mkDB _ _ _ _).
  assert (backlog now db' = 0) as H0 by (unfold backlog, db'; cbn [contentVersions]; lia).
  eexists _, db', _, _. split; [reflexivity|]. split; [reflexivity|].
  split; [exact Hl|]. cbn [oldestVersion].
  destruct (contentVersions db') as [|v vs] eqn:E; [by left|]. right.
  cbn [map length Nat.ltb Nat.leb].
  destruct (Math_min_cons (createdAt v) (map (λ w : VersionDoc, createdAt w) vs))
    as (lo & Hlo & Hin & _).
  exists lo. split; [by rewrite Hlo|].
  change (createdAt v :: map (λ w : VersionDoc, createdAt w) vs)
    with (map (λ w : VersionDoc, createdAt w) (v :: vs)) in Hin.
  apply in_map_iff in Hin as (w & <- & Hw). rewrite <- E in Hw.
  pose proof (backlog_zero_none_eligible now db' w H0 Hw) as He.
  destruct (decide (createdAt w < now - 259200000)%Z) as [Hlt|Hge]; [|lia].
  apply eligible_spec in Hlt. congruence.
Qed.

Lemma cleanupOldVersions_then_getStats_witness :
  well_formed db_site ∧ backlog 259201150 db_site ≤ 1000 ∧
  ∃ db' log st,
    cleanupOldVersions 259201150 db_site = Some (2, db', log) ∧
    getStats db' = Some (st, db', []) ∧
    totalVersions st = 1.
Proof.
  assert (well_formed db_site) as Hwf by concrete_well_formed.
  assert (backlog 259201150 db_site ≤ 1000) as Hle by (vm_compute; lia).
  split; [exact Hwf|]. split; [exact Hle|].
  destruct (cleanupOldVersions_then_getStats 259201150 db_site Hwf Hle)
    as (k & db' & log & st & Hrun & Hst & Htot & _).
  assert (k = 2) as -> by (vm_compute in Hrun; congruence).
  exists db', log, st. repeat split; assumption.
Defined.

Lemma filter_eligible_prefix (now : Z) (l : list VersionDoc) :
  StronglySorted (λ a b : VersionDoc, (createdAt a ≤ createdAt b)%Z) l →
  List.filter (eligible now) l = take (length (List.filter (eligible now) l)) l.
Proof.
  induction 1 as [|v l Hl IH Hv]; [done|]. cbn [List.filter].
  destruct (eligible now v) eqn:E.
  - cbn [length take]. by rewrite <- IH.
  - assert (List.filter (eligible now) l = []) as ->; [|done].
    rewrite List.Forall_forall in Hv.
    assert (∀ w, In w l → eligible now w = false) as Hall.
    { intros w Hw. specialize (Hv w Hw). unfold eligible in *.
      apply Z.ltb_ge. apply Z.ltb_ge in E. lia. }
    clear -Hall. induction l as [|w l IH]; [done|]. cbn.
    rewrite (Hall w) by by left. apply IH. intros x Hx. apply Hall. by right.
Qed.

(** When the stored timestamps follow insertion order, a sweep removes a
    prefix of the table: the [min 1000 backlog] snapshots inserted first
    go, in that order, and the rest of the table stays. *)
Theorem cleanupOldVersions_drops_oldest (now : Z) (db : DB) :
  well_formed db → clock_ordered db →
  ∃ k db',
    cleanupOldVersions now db =
      Some (k, db', map (λ d, DeleteVersion (v_id d)) (take k (contentVersions db))) ∧
    k = Nat.min 1000 (backlog now db) ∧
    contentVersions db' = drop k (contentVersions db).
Proof.
  intros [[Hnd _] _] Hord. rewrite cleanupOldVersions_run by done.
  assert (sweep_batch now db =
          take (Nat.min 1000 (backlog now db)) (contentVersions db)) as Hbatch.
  { unfold sweep_batch. rewrite by_createdAt_clock_ordered by done.
    rewrite (filter_eligible_prefix now _ Hord). fold (backlog now db).
    by rewrite take_take. }
  exists (Nat.min 1000 (backlog now db)). eexists.
  split; [|split; [done|]].
  - rewrite Hbatch at 1 3. rewrite length_take.
    pose proof (List.filter_length_le (eligible now) (contentVersions db)) as Hle.
    fold (backlog now db) in Hle. do 2 f_equal. f_equal. lia.
  - cbn [contentVersions]. rewrite Hbatch. by apply without_ids_take.
Qed.

Lemma cleanupOldVersions_drops_oldest_witness :
  well_formed db_site ∧ clock_ordered db_site ∧
  ∃ db', cleanupOldVersions 259201150 db_site =
           Some (2, db', [DeleteVersion 1%N; DeleteVersion 2%N]) ∧
         contentVersions db' = [snapshot_3].
Proof.
  assert (well_formed db_site) as Hwf by concrete_well_formed.
  assert (clock_ordered db_site) as Hord.
  { unfold clock_ordered. cbn. repeat constructor; cbn; lia. }
  split; [exact Hwf|]. split; [exact Hord|].
  destruct (cleanupOldVersions_drops_oldest 259201150 db_site Hwf Hord)
    as (k & db' & Hrun & Hk & Hrest).
  assert (k = 2) as -> by (rewrite Hk; reflexivity).
  exists db'. split; [exact Hrun | exact Hrest].
Defined.

(** ** Recording and restoring, seen through the history *)

(** With the gate on, the snapshot [createVersion] records becomes the
    first entry of its content key's history, ahead of the entries that
    were there, and the history of every other content key is
    unchanged. *)
Theorem createVersion_heads_history (now : Z) (ct : ContentType)
    (cid sl ti co : string) (de : option string) (src : Source) (db : DB) :
  gate db = true →
  ∃ id db' log old,
    createVersion now ct cid sl ti co de src db = Some (Some id, db', log) ∧
    getVersionHistory ct cid db = Some (old, db, []) ∧
    getVersionHistory ct cid db' =
      Some (summarize (mkVersion id (mkFields ct cid sl ti co de now src)) :: old,
            db', []) ∧
    (∀ ct' cid' l, ¬ (ct = ct' ∧ cid = cid') →
       getVersionHistory ct' cid' db = Some (l, db, []) →
       getVersionHistory ct' cid' db' = Some (l, db', [])).
Proof.
  intros Hg. rewrite createVersion_run, Hg. eexists _, _, _, _.
  split; [reflexivity|]. split; [apply getVersionHistory_run|].
  rewrite !getVersionHistory_run. cbn [contentVersions].
  split.
  - rewrite List.filter_app. cbn [List.filter]. unfold matches_content at 2.
    cbn [contentType contentId v_fields created_version].
    rewrite !bool_decide_eq_true_2 by done. cbn [andb].
    by rewrite rev_app_distr.
  - intros ct' cid' l Hne Hl. rewrite getVersionHistory_run in Hl.
    injection Hl as <-. rewrite getVersionHistory_run. cbn [contentVersions].
    rewrite List.filter_app. cbn [List.filter].
    assert (matches_content ct' cid' (created_version now ct cid sl ti co de src db)
            = false) as ->.
    { apply not_true_iff_false. intros [? ?]%matches_content_true. by apply Hne. }
    by rewrite app_nil_r.
Qed.

Lemma createVersion_heads_history_witness :
  gate db_same_instant = true ∧
  ∃ id db' log l,
    createVersion 5000 Post "p1" "hello" "C" "third" None Dashboard db_same_instant =
      Some (Some id, db', log) ∧
    getVersionHistory Post "p1" db' = Some (l, db', []) ∧
    map h_title l = ["C"; "B"; "A"].
Proof.
  split; [reflexivity|].
  destruct (createVersion_heads_history 5000 Post "p1" "hello" "C" "third" None
              Dashboard db_same_instant eq_refl)
    as (id & db' & log & old & Hrun & Hold & Hnew & _).
  injection Hold as <-.
  exists id, db', log. eexists. split; [exact Hrun|]. split; [exact Hnew|].
  reflexivity.
Defined.

(** After a successful restore the first entry of the content key's
    history is the backup, tagged [restore] and titled as the live item
    was before the call; the entries that were there follow it unchanged,
    the restored snapshot among them. *)
Theorem restoreVersion_heads_history (nb np : Z) (id : Id) (db : DB)
    (v : VersionDoc) (c : ContentDoc) :
  stored_version db id = Some v →
  liveContent db !! contentId v = Some c →
  ∃ db' log old first,
    restoreVersion nb np id db = Some (restored, db', log) ∧
    getVersionHistory (contentType v) (contentId v) db = Some (old, db, []) ∧
    getVersionHistory (contentType v) (contentId v) db' =
      Some (first :: old, db', []) ∧
    h_id first = nextId db ∧
    h_source first = Restore ∧
    h_title first = c_title c ∧
    h_createdAt first = nb ∧
    In (summarize v) old.
Proof.
  intros Hv Hc. rewrite restoreVersion_run, Hv, Hc.
  eexists _, _, _, (summarize (backup_of nb v c db)).
  split; [reflexivity|]. split; [apply getVersionHistory_run|].
  rewrite getVersionHistory_run. cbn [contentVersions].
  split.
  { rewrite List.filter_app. cbn [List.filter]. unfold matches_content at 2.
    cbn [contentType contentId v_fields backup_of].
    rewrite !bool_decide_eq_true_2 by done. cbn [andb].
    by rewrite rev_app_distr. }
  do 4 (split; [reflexivity|]).
  apply stored_version_In in Hv as [Hin _].
  apply in_map, in_rev. rewrite rev_involutive. apply filter_In.
  split; [done|]. by apply matches_content_true.
Qed.

Lemma restoreVersion_heads_history_witness :
  stored_version db_site 1%N = Some snapshot_1 ∧
  liveContent db_site !! contentId snapshot_1 = Some post_p1 ∧
  ∃ db' log l,
    restoreVersion 5000 5001 1%N db_site = Some (restored, db', log) ∧
    getVersionHistory Post "p1" db' = Some (l, db', []) ∧
    map h_title l = ["B"; "A"] ∧ map h_source l = [Restore; Dashboard].
Proof.
  split; [reflexivity|]. split; [reflexivity|].
  destruct (restoreVersion_heads_history 5000 5001 1%N db_site snapshot_1 post_p1
              eq_refl eq_refl)
    as (db' & log & old & first & Hrun & Hold & Hnew & _ & Hsrc & Htitle & _).
  injection Hold as <-.
  exists db', log. eexists. split; [exact Hrun|]. split; [exact Hnew|].
  cbn [map]. rewrite Hsrc, Htitle. split; reflexivity.
Defined.

(** ** The gate and recording together *)

Lemma gate_after_set (b : bool) (db db' : DB) (log : list Write) :
  setEnabled b db = Some (tt, db', log) → gate db' = b.
Proof.
  intros (s & Hs & Hv & _)%first_setting_after_set.
  unfold gate, value_is_true. rewrite Hs, Hv. by destruct b.
Qed.

(** Turning the gate off stops recording and turning it on starts it,
    from any database: after [setEnabled false] a [createVersion] returns
    none and changes nothing; after [setEnabled true] it stores the
    snapshot and returns its id. *)
Theorem setEnabled_then_createVersion (b : bool) (now : Z) (ct : ContentType)
    (cid sl ti co : string) (de : option string) (src : Source) (db : DB) :
  ∃ db1 log1,
    setEnabled b db = Some (tt, db1, log1) ∧
    (b = false →
       createVersion now ct cid sl ti co de src db1 = Some (None, db1, [])) ∧
    (b = true →
       ∃ id db2 log2,
         createVersion now ct cid sl ti co de src db1 = Some (Some id, db2, log2) ∧
         contentVersions db2 =
           contentVersions db ++ [mkVersion id (mkFields ct cid sl ti co de now src)]).
Proof.
  destruct (setEnabled b db) as [[[[] db1] log1]|] eqn:Hset;
    [|rewrite setEnabled_run in Hset; by destruct (first_setting db "enabled")].
  exists db1, log1. split; [done|].
  pose proof (gate_after_set _ _ _ _ Hset) as Hg.
  assert (contentVersions db1 = contentVersions db) as Hsame.
  { rewrite setEnabled_run in Hset.
    by destruct (first_setting db "enabled"); injection Hset as <- <-. }
  rewrite createVersion_run, Hg. split; intros ->; [done|].
  eexists _, _, _. split; [reflexivity|]. cbn [contentVersions]. by rewrite Hsame.
Qed.

Lemma setEnabled_then_createVersion_witness :
  (∃ db1 log1,
     setEnabled false db_gate_on = Some (tt, db1, log1) ∧
     createVersion 5000 Post "p1" "hello" "C" "third" None Dashboard db1 =
       Some (None, db1, [])) ∧
  (∃ db1 log1 id db2 log2,
     setEnabled true db_site = Some (tt, db1, log1) ∧
     createVersion 5000 Post "p1" "hello" "C" "third" None Dashboard db1 =
       Some (Some id, db2, log2)).
Proof.
  split.
  - destruct (setEnabled_then_createVersion false 5000 Post "p1" "hello" "C" "third"
                None Dashboard db_gate_on) as (db1 & log1 & Hset & Hoff & _).
    exists db1, log1. split; [exact Hset | exact (Hoff eq_refl)].
  - destruct (setEnabled_then_createVersion true 5000 Post "p1" "hello" "C" "third"
                None Dashboard db_site) as (db1 & log1 & Hset & _ & Hon).
    destruct (Hon eq_refl) as (id & db2 & log2 & Hrun & _).
    exists db1, log1, id, db2, log2. split; assumption.
Defined.

(** ** Sanitized file names *)

Lemma safe_char_replaced (a : ascii) :
  is_safe_char (if is_safe_char a then a else "-"%char) = true.
Proof. by destruct (is_safe_char a) eqn:E. Qed.

Lemma lower_char_clean (a : ascii) :
  is_safe_char a = true → is_clean_char (lower_char a) = true.
Proof. destruct a as [[] [] [] [] [] [] [] []]; vm_compute; congruence. Qed.

Lemma lower_char_dash (a : ascii) : is_dash (lower_char a) = is_dash a.
Proof. by destruct a as [[] [] [] [] [] [] [] []]. Qed.

Lemma clean_char_safe (a : ascii) : is_clean_char a = true → is_safe_char a = true.
Proof. destruct a as [[] [] [] [] [] [] [] []]; vm_compute; congruence. Qed.

Lemma clean_char_lower (a : ascii) : is_clean_char a = true → lower_char a = a.
Proof. destruct a as [[] [] [] [] [] [] [] []]; vm_compute; congruence. Qed.

Lemma replace_unsafe_safe (s : string) :
  string_forallb is_safe_char (replace_unsafe s) = true.
Proof.
  induction s as [|a s IH]; [done|]. cbn [replace_unsafe string_forallb].
  by rewrite safe_char_replaced, IH.
Qed.

Lemma starts_with_dash_collapse (s : string) :
  starts_with_dash (collapse_dashes s) = starts_with_dash s.
Proof.
  induction s as [|a s IH]; [done|]. cbn [collapse_dashes].
  destruct (is_dash a) eqn:Ea, (starts_with_dash s) eqn:Es; cbn [andb];
    [by rewrite IH | by cbn; rewrite Ea..].
Qed.

Lemma collapse_dashes_forallb (p : ascii → bool) (s : string) :
  string_forallb p s = true → string_forallb p (collapse_dashes s) = true.
Proof.
  induction s as [|a s IH]; [done|]. cbn [string_forallb collapse_dashes].
  intros [Ha Hs]%andb_true_iff.
  destruct (is_dash a && starts_with_dash s); [by apply IH|].
  cbn [string_forallb]. by rewrite Ha, IH.
Qed.

Lemma collapse_dashes_no_double (s : string) :
  no_double_dash (collapse_dashes s) = true.
Proof.
  induction s as [|a s IH]; [done|]. cbn [collapse_dashes].
  destruct (is_dash a && starts_with_dash s) eqn:E; [done|].
  cbn [no_double_dash]. by rewrite starts_with_dash_collapse, E, IH.
Qed.

Lemma collapse_dashes_length (s : string) :
  String.length (collapse_dashes s) ≤ String.length s.
Proof.
  induction s as [|a s IH]; [done|]. cbn [collapse_dashes].
  destruct (is_dash a && starts_with_dash s); cbn [String.length]; lia.
Qed.

Lemma replace_unsafe_length (s : string) :
  String.length (replace_unsafe s) = String.length s.
Proof. induction s as [|a s IH]; [done|]. cbn. by rewrite IH. Qed.

Lemma toLowerCase_length (s : string) :
  String.length (toLowerCase s) = String.length s.
Proof. induction s as [|a s IH]; [done|]. cbn. by rewrite IH. Qed.

Lemma toLowerCase_clean (s : string) :
  string_forallb is_safe_char s = true →
  string_forallb is_clean_char (toLowerCase s) = true.
Proof.
  induction s as [|a s IH]; [done|]. cbn [string_forallb toLowerCase].
  intros [Ha Hs]%andb_true_iff. by rewrite lower_char_clean, IH.
Qed.

Lemma starts_with_dash_lower (s : string) :
  starts_with_dash (toLowerCase s) = starts_with_dash s.
Proof. destruct s as [|a s]; [done|]. apply lower_char_dash. Qed.

Lemma toLowerCase_no_double (s : string) :
  no_double_dash (toLowerCase s) = no_double_dash s.
Proof.
  induction s as [|a s IH]; [done|]. cbn [toLowerCase no_double_dash].
  by rewrite lower_char_dash, starts_with_dash_lower, IH.
Qed.

Lemma sanitizeFilename_clean_names (filename : string) :
  string_forallb is_clean_char (sanitizeFilename filename) = true ∧
  no_double_dash (sanitizeFilename filename) = true.
Proof.
  unfold sanitizeFilename. split.
  - apply toLowerCase_clean, collapse_dashes_forallb, replace_unsafe_safe.
  - rewrite toLowerCase_no_double. apply collapse_dashes_no_double.
Qed.

(** The name [commitFile] stores is made of lower-case letters, digits,
    dots and dashes only, never has two dashes in a row, and is no longer
    than the name it was given. *)
Theorem sanitizeFilename_clean (filename : string) :
  string_forallb is_clean_char (sanitizeFilename filename) = true ∧
  no_double_dash (sanitizeFilename filename) = true ∧
  String.length (sanitizeFilename filename) ≤ String.length filename.
Proof.
  destruct (sanitizeFilename_clean_names filename) as [Hc Hd].
  split; [done|]. split; [done|]. unfold sanitizeFilename.
  rewrite toLowerCase_length, <- (replace_unsafe_length filename).
  apply collapse_dashes_length.
Qed.

Lemma replace_unsafe_id (s : string) :
  string_forallb is_clean_char s = true → replace_unsafe s = s.
Proof.
  induction s as [|a s IH]; [done|]. cbn [string_forallb replace_unsafe].
  intros [Ha Hs]%andb_true_iff. by rewrite (clean_char_safe a Ha), IH.
Qed.

Lemma collapse_dashes_id (s : string) :
  no_double_dash s = true → collapse_dashes s = s.
Proof.
  induction s as [|a s IH]; [done|]. cbn [no_double_dash collapse_dashes].
  intros [Ha Hs]%andb_true_iff. apply negb_true_iff in Ha. by rewrite Ha, IH.
Qed.

Lemma toLowerCase_id (s : string) :
  string_forallb is_clean_char s = true → toLowerCase s = s.
Proof.
  induction s as [|a s IH]; [done|]. cbn [string_forallb toLowerCase].
  intros [Ha Hs]%andb_true_iff. by rewrite (clean_char_lower a Ha), IH.
Qed.

(** The names the sanitizer leaves alone are exactly those already made
    of lower-case letters, digits, dots and single dashes; so sanitizing
    twice is sanitizing once. *)
Theorem sanitizeFilename_fixed_points (filename : string) :
  (sanitizeFilename filename = filename ↔
   string_forallb is_clean_char filename = true ∧
   no_double_dash filename = true) ∧
  sanitizeFilename (sanitizeFilename filename) = sanitizeFilename filename.
Proof.
  assert (∀ s, string_forallb is_clean_char s = true → no_double_dash s = true →
               sanitizeFilename s = s) as Hfix.
  { intros s Hc Hd. unfold sanitizeFilename.
    by rewrite (replace_unsafe_id s Hc), (collapse_dashes_id s Hd), toLowerCase_id. }
  pose proof (sanitizeFilename_clean_names filename) as [Hc Hd].
  split; [split|].
  - intros <-. by split.
  - intros [? ?]. by apply Hfix.
  - by apply Hfix.
Qed.

Lemma sanitizeFilename_fixed_points_witness :
  string_forallb is_clean_char "my-photo.png" = true ∧
  no_double_dash "my-photo.png" = true ∧
  sanitizeFilename "my-photo.png" = "my-photo.png".
Proof.
  split; [reflexivity|]. split; [reflexivity|].
  apply (proj1 (sanitizeFilename_fixed_points "my-photo.png")). by split.
Defined.

Lemma replace_unsafe_app (x y : string) :
  replace_unsafe (x +:+ y) = replace_unsafe x +:+ replace_unsafe y.
Proof.
  induction x as [|a x IH]; [done|].
  change (String (if is_safe_char a then a else "-"%char) (replace_unsafe (x +:+ y)) =
          String (if is_safe_char a then a else "-"%char)
                 (replace_unsafe x +:+ replace_unsafe y)).
  by rewrite IH.
Qed.

Lemma toLowerCase_app (x y : string) :
  toLowerCase (x +:+ y) = toLowerCase x +:+ toLowerCase y.
Proof.
  induction x as [|a x IH]; [done|].
  change (String (lower_char a) (toLowerCase (x +:+ y)) =
          String (lower_char a) (toLowerCase x +:+ toLowerCase y)).
  by rewrite IH.
Qed.

Lemma collapse_dashes_dot (x y : string) :
  collapse_dashes (x +:+ String "."%char y) =
  collapse_dashes x +:+ String "."%char (collapse_dashes y).
Proof.
  induction x as [|a x IH]; [done|].
  change (String a x +:+ String "."%char y) with (String a (x +:+ String "."%char y)).
  cbn [collapse_dashes].
  assert (starts_with_dash (x +:+ String "."%char y) = starts_with_dash x) as ->
    by by destruct x.
  destruct (is_dash a && starts_with_dash x); [exact IH|].
  change (String a (collapse_dashes (x +:+ String "."%char y)) =
          String a (collapse_dashes x +:+ String "."%char (collapse_dashes y))).
  by rewrite IH.
Qed.

(** A dot splits the work of the sanitizer: the name is sanitized on
    each side of it and the dot is kept, so an extension made of letters
    and digits survives, in lower case and at full length. *)
Theorem sanitizeFilename_extension (base ext : string) :
  sanitizeFilename (base +:+ "." +:+ ext) =
    sanitizeFilename base +:+ "." +:+ sanitizeFilename ext ∧
  (string_forallb (λ a, is_safe_char a && negb (is_dash a)) ext = true →
   sanitizeFilename ext = toLowerCase ext ∧
   String.length (sanitizeFilename ext) = String.length ext).
Proof.
  split.
  - unfold sanitizeFilename.
    change ("." +:+ ext) with (String "."%char ext).
    rewrite replace_unsafe_app.
    change (replace_unsafe (String "."%char ext))
      with (String "."%char (replace_unsafe ext)).
    rewrite collapse_dashes_dot, toLowerCase_app. reflexivity.
  - intros Hext.
    assert (replace_unsafe ext = ext ∧ no_double_dash ext = true) as [Hr Hd].
    { induction ext as [|a e IH]; [done|]. cbn [string_forallb] in Hext.
      apply andb_true_iff in Hext as [Ha He].
      apply andb_true_iff in Ha as [Hs Hn]. apply negb_true_iff in Hn.
      destruct (IH He) as [IHr IHd]. cbn [replace_unsafe no_double_dash].
      by rewrite Hs, IHr, Hn, IHd. }
    unfold sanitizeFilename. rewrite Hr, (collapse_dashes_id ext Hd).
    split; [done | apply toLowerCase_length].
Qed.

Lemma sanitizeFilename_extension_witness :
  string_forallb (λ a, is_safe_char a && negb (is_dash a)) "PNG" = true ∧
  sanitizeFilename ("My Photo (1)" +:+ "." +:+ "PNG") =
    sanitizeFilename "My Photo (1)" +:+ "." +:+ "png".
Proof.
  split; [reflexivity|].
  destruct (sanitizeFilename_extension "My Photo (1)" "PNG") as [Hsplit Hext].
  destruct (Hext eq_refl) as [Hlow _]. rewrite Hsplit, Hlow. reflexivity.
Defined.

(** ** Committing, deleting and expiring files *)

Section files.
Context {Store : Type} `{ConvexFS Store}.

Lemma float_gt_Z_of_Z (z limit : Z) :
  float_gt_Z (float_of_Z z) limit = false ↔ (z ≤ limit)%Z.
Proof.
  unfold float_of_Z, float_gt_Z. change (0 <=? 0)%Z with true. cbv iota.
  rewrite Z.pow_0_r, Z.mul_1_r. apply Z.ltb_ge.
Qed.

Lemma commitFile_inr (env : Env) (now : Z) (args : CommitArgs) (st st' : Store)
    (r : CommitResult) :
  commitFile env now args st = inr (r, st') ↔
  isBunnyConfigured env = true ∧
  a_contentType args ∈ ALLOWED_TYPES ∧
  float_gt_Z (a_size args) MAX_FILE_SIZE = false ∧
  r = {| r_path := "/uploads/" +:+ pretty now +:+ "-" +:+
                   sanitizeFilename (a_filename args);
         r_filename := sanitizeFilename (a_filename args);
         r_contentType := a_contentType args;
         r_size := a_size args;
         r_width := a_width args;
         r_height := a_height args |} ∧
  fs_commitFiles [(r_path r, a_blobId args)] st = Some st'.
Proof.
  unfold commitFile. split.
  - destruct (isBunnyConfigured env); cbn [negb]; [|done].
    case_bool_decide as Hct; cbn [negb]; [|done].
    destruct (float_gt_Z (a_size args) MAX_FILE_SIZE) eqn:Hsz; [done|].
    destruct (fs_commitFiles _ st) as [st1|] eqn:Hfs; [|done].
    intros [= <- <-]. done.
  - intros (-> & Hct & -> & -> & Hfs). cbn [negb r_path] in *.
    rewrite (bool_decide_eq_true_2 _ Hct). cbn [negb]. by rewrite Hfs.
Qed.

(** [commitFile] stores a file exactly when storage is configured, the
    content type is one of the four allowed image types, [size > 10485760]
    is false and [fs.commitFiles] succeeds.  It then commits one entry,
    the given blob under [/uploads/<timestamp>-<name>] with the sanitized
    name, which has no slash, and returns that path and name with the
    other arguments unchanged.  An integer size is accepted up to
    10485760 bytes, that size included, and so is a size that is NaN,
    which no comparison refuses. *)
Theorem commitFile_commits (env : Env) (now : Z) (args : CommitArgs) (st st' : Store) :
  (∀ r, commitFile env now args st = inr (r, st') →
     isBunnyConfigured env = true ∧
     a_contentType args ∈ ALLOWED_TYPES ∧
     float_gt_Z (a_size args) 10485760 = false ∧
     (∀ z, a_size args = float_of_Z z → (z ≤ 10485760)%Z) ∧
     r_filename r = sanitizeFilename (a_filename args) ∧
     r_path r = "/uploads/" +:+ pretty now +:+ "-" +:+ r_filename r ∧
     string_forallb (λ a, negb (nat_of_ascii a =? 47)) (r_filename r) = true ∧
     fs_commitFiles [(r_path r, a_blobId args)] st = Some st' ∧
     r_contentType r = a_contentType args ∧
     r_size r = a_size args ∧
     r_width r = a_width args ∧
     r_height r = a_height args) ∧
  (isBunnyConfigured env = true →
   a_contentType args ∈ ALLOWED_TYPES →
   fs_commitFiles [("/uploads/" +:+ pretty now +:+ "-" +:+
                    sanitizeFilename (a_filename args), a_blobId args)] st
     = Some st' →
   (float_gt_Z (a_size args) 10485760 = false ∨ a_size args = FNaN ∨
    ∃ z, a_size args = float_of_Z z ∧ (z ≤ 10485760)%Z) →
   ∃ r, commitFile env now args st = inr (r, st') ∧ r_size r = a_size args).
Proof.
  split.
  - intros r (Hcfg & Hct & Hsz & -> & Hfs)%commitFile_inr.
    cbn [r_path r_filename r_contentType r_size r_width r_height] in *.
    split; [done|]. split; [done|]. split; [exact Hsz|]. split.
    { intros z Hz. rewrite Hz in Hsz. by apply float_gt_Z_of_Z in Hsz. }
    repeat split; try done.
    destruct (sanitizeFilename_clean_names (a_filename args)) as [Hclean _].
    revert Hclean. generalize (sanitizeFilename (a_filename args)).
    induction s as [|a s IH]; [done|]. cbn [string_forallb].
    intros [Ha Hs]%andb_true_iff. rewrite (IH Hs), andb_true_r.
    revert Ha. destruct a as [[] [] [] [] [] [] [] []]; vm_compute; congruence.
  - intros Hcfg Hct Hfs Hsz.
    exists {| r_path := "/uploads/" +:+ pretty now +:+ "-" +:+
                        sanitizeFilename (a_filename args);
              r_filename := sanitizeFilename (a_filename args);
              r_contentType := a_contentType args;
              r_size := a_size args;
              r_width := a_width args;
              r_height := a_height args |}.
    split; [|reflexivity].
    apply commitFile_inr. split; [done|]. split; [done|]. split.
    + destruct Hsz as [Hsz|[->|(z & -> & Hz)]]; [exact Hsz | done |].
      by apply float_gt_Z_of_Z.
    + split; [reflexivity | exact Hfs].
Qed.

(** Whatever [commitFile] accepts passes the checks the upload dialog
    makes before sending, and the two size limits are the same number:
    the dialog refuses a size exactly when it exceeds [MAX_FILE_SIZE],
    for an integer size exactly when the size is above that number. *)
Theorem commitFile_passes_handleUpload_check (env : Env) (now : Z)
    (args : CommitArgs) (st st' : Store) (r : CommitResult) :
  commitFile env now args st = inr (r, st') →
  handleUpload_check (a_contentType args) (a_size args) = None ∧
  (∀ size, handleUpload_check (a_contentType args) size = None ↔
           float_gt_Z size MAX_FILE_SIZE = false) ∧
  (∀ z : Z, handleUpload_check (a_contentType args) (float_of_Z z) = None ↔
            (z ≤ MAX_FILE_SIZE)%Z).
Proof.
  intros (_ & Hct & Hsz & _)%commitFile_inr.
  assert (String.prefix "image/" (a_contentType args) = true) as Hp.
  { unfold ALLOWED_TYPES in Hct.
    repeat (apply elem_of_cons in Hct as [->|Hct]; [reflexivity|]).
    by apply elem_of_nil in Hct. }
  assert (∀ size, handleUpload_check (a_contentType args) size = None ↔
                  float_gt_Z size MAX_FILE_SIZE = false) as Hsame.
  { intros size. unfold handleUpload_check. rewrite Hp. cbn [negb].
    change (10 * 1024 * 1024)%Z with MAX_FILE_SIZE.
    by destruct (float_gt_Z size MAX_FILE_SIZE). }
  split; [by apply Hsame|]. split; [exact Hsame|].
  intros z. rewrite Hsame. apply float_gt_Z_of_Z.
Qed.

Lemma deleteFiles_loop_count (paths : list string) (d n : nat) (st st' : Store) :
  deleteFiles_loop paths d st = Some (n, st') → n = d + length paths.
Proof.
  revert d st. induction paths as [|p ps IH]; intros d st; cbn.
  - intros [= <- <-]. lia.
  - destruct (fs_delete p st) as [st1|]; [|done]. intros Hl%IH. lia.
Qed.

Lemma deleteFiles_loop_shift (paths : list string) (d k : nat) (st : Store) :
  deleteFiles_loop paths (d + k) st =
  (λ '(n, st'), (n + k, st')) <$> deleteFiles_loop paths d st.
Proof.
  revert d st. induction paths as [|p ps IH]; intros d st; cbn; [done|].
  destruct (fs_delete p st) as [st1|]; [|done].
  replace (d + k + 1) with (d + 1 + k) by lia. apply IH.
Qed.

Lemma deleteFiles_loop_app (p q : list string) (d : nat) (st : Store) :
  deleteFiles_loop (p ++ q) d st =
  match deleteFiles_loop p d st with
  | Some (d', st') => deleteFiles_loop q d' st'
  | None => None
  end.
Proof.
  revert d st. induction p as [|x p IH]; intros d st; cbn; [done|].
  destruct (fs_delete x st) as [st1|]; [apply IH | done].
Qed.

(** When [deleteFiles] succeeds its [deleted] is the number of paths it
    was given, whether or not a file was there and counting a repeated
    path each time; the empty list succeeds with 0 and an untouched
    storage; and deleting [p ++ q] in one call succeeds exactly when
    deleting [p] and then [q] does, with the same storage at the end. *)
Theorem deleteFiles_counts_requests (env : Env) (p q : list string) (st : Store) :
  (∀ ok n st', deleteFiles env p st = inr (ok, n, st') →
               ok = true ∧ n = length p ∧ isBunnyConfigured env = true) ∧
  (isBunnyConfigured env = true → deleteFiles env [] st = inr (true, 0, st)) ∧
  (∀ st'',
     deleteFiles env (p ++ q) st = inr (true, length p + length q, st'') ↔
     ∃ st', deleteFiles env p st = inr (true, length p, st') ∧
            deleteFiles env q st' = inr (true, length q, st'')).
Proof.
  unfold deleteFiles. split; [|split].
  - intros ok n st'. destruct (isBunnyConfigured env); cbn [negb]; [|done].
    destruct (deleteFiles_loop p 0 st) as [[d st1]|] eqn:E; [|done].
    intros [= <- <- <-]. by rewrite (deleteFiles_loop_count _ _ _ _ _ E).
  - by intros ->.
  - intros st''. destruct (isBunnyConfigured env); cbn [negb];
      [|split; [done | by intros (? & ? & _)]].
    rewrite deleteFiles_loop_app.
    destruct (deleteFiles_loop p 0 st) as [[d st1]|] eqn:Ep;
      [|split; [done | by intros (? & ? & _)]].
    pose proof (deleteFiles_loop_count _ _ _ _ _ Ep) as ->. cbn [Nat.add].
    pose proof (deleteFiles_loop_shift q 0 (length p) st1) as Hshift.
    cbn [Nat.add] in Hshift. rewrite Hshift.
    destruct (deleteFiles_loop q 0 st1) as [[d2 st2]|] eqn:Eq; cbn.
    + pose proof (deleteFiles_loop_count _ _ _ _ _ Eq) as ->. cbn [Nat.add].
      split.
      * intros [= _ <-]. exists st1. by rewrite Eq.
      * intros (st' & [= <-] & Hq). rewrite Eq in Hq. injection Hq as <-.
        do 3 f_equal. lia.
    + split; [done|]. intros (st' & [= <-] & Hq). by rewrite Eq in Hq.
Qed.

Lemma float_add_of_Z (x y : Z) :
  (Z.abs (x + y) < 2 ^ 53)%Z →
  float_add (float_of_Z x) (float_of_Z y) = float_of_Z (x + y).
Proof.
  intros Hsafe. unfold float_of_Z, float_add.
  change (Z.min 0 0) with 0%Z. change (0 - 0)%Z with 0%Z.
  rewrite Z.pow_0_r, !Z.mul_1_r. unfold float_round.
  destruct (x + y =? 0)%Z eqn:E0; [by apply Z.eqb_eq in E0 as ->|].
  apply Z.eqb_neq in E0. cbv zeta.
  assert (0 < Z.abs (x + y))%Z as Hpos by lia.
  assert (Z.log2 (Z.abs (x + y)) < 53)%Z as Hlog
    by (apply Z.log2_lt_pow2; [exact Hpos | exact Hsafe]).
  pose proof (Z.log2_nonneg (Z.abs (x + y))) as Hlog0.
  rewrite (proj2 (Z.leb_le _ 0)) by lia.
  rewrite (proj2 (Z.ltb_lt 0 _) Hpos). cbn [andb].
  rewrite (proj2 (Z.leb_gt _ _)) by lia.
  f_equal. lia.
Qed.

(** [setFileExpiration] treats an [expiresInMs] that is zero or NaN like
    a missing one: all three clear the expiration.  Any other value,
    negative ones too, sets [expiresAt] to the float64 sum
    [now + expiresInMs], and the call returns it once [fs.transact] has
    written it on the file [fs.stat] found; for an integer [expiresInMs]
    other than 0 the sum is the exact one as long as it is below [2^53]
    in absolute value.  A path with no file fails with
    ["File not found"] before anything is written. *)
Theorem setFileExpiration_zero_clears (env : Env) (now : Z) (path : string) (st : Store) :
  (∀ e, setFileExpiration env now path (Some (FFinite 0 e)) st =
        setFileExpiration env now path None st) ∧
  setFileExpiration env now path (Some FNaN) st =
    setFileExpiration env now path None st ∧
  (∀ file ms st',
     isBunnyConfigured env = true →
     fs_stat path st = Some file →
     js_truthy_number (Some ms) = true →
     fs_transact [SetAttributes file (Some (float_add (float_of_Z now) ms))] st
       = Some st' →
     setFileExpiration env now path (Some ms) st =
       inr (true, Some (float_add (float_of_Z now) ms), st')) ∧
  (∀ file z st',
     isBunnyConfigured env = true →
     fs_stat path st = Some file →
     z ≠ 0%Z → (Z.abs (now + z) < 2 ^ 53)%Z →
     fs_transact [SetAttributes file (Some (float_of_Z (now + z)))] st = Some st' →
     setFileExpiration env now path (Some (float_of_Z z)) st =
       inr (true, Some (float_of_Z (now + z)), st')) ∧
  (∀ ms e st', setFileExpiration env now path ms st = inr (true, e, st') →
     ∃ file, fs_stat path st = Some file ∧
             fs_transact [SetAttributes file e] st = Some st' ∧
             e = match ms with
                 | Some x => if js_truthy_number (Some x)
                             then Some (float_add (float_of_Z now) x) else None
                 | None => None
                 end) ∧
  (isBunnyConfigured env = true → fs_stat path st = None →
     ∀ ms, setFileExpiration env now path ms st =
           inl (ErrorMessage "File not found")).
Proof.
  split; [done|]. split; [done|]. split; [|split; [|split]].
  - intros file ms st' Hcfg Hstat Hms Ht. unfold setFileExpiration.
    by rewrite Hcfg, Hstat, Hms, Ht.
  - intros file z st' Hcfg Hstat Hz Hsafe Ht. unfold setFileExpiration.
    rewrite Hcfg, Hstat. cbn [negb js_truthy_number float_of_Z].
    rewrite (proj2 (Z.eqb_neq z 0) Hz). cbn [negb].
    change (FFinite now 0) with (float_of_Z now).
    change (FFinite z 0) with (float_of_Z z).
    by rewrite (float_add_of_Z now z Hsafe), Ht.
  - intros ms e st'. unfold setFileExpiration.
    destruct (isBunnyConfigured env); cbn [negb]; [|done].
    destruct (fs_stat path st) as [file|]; [|done].
    destruct (fs_transact _ st) as [st1|] eqn:Ht; [|done].
    intros [= <- <-]. exists file. split; [done|]. split; [exact Ht|].
    by destruct ms.
  - intros Hcfg Hstat ms. unfold setFileExpiration. by rewrite Hcfg, Hstat.
Qed.
End files.

Lemma commitFile_commits_witness :
  ∃ r st',
    commitFile env_configured 1700000000000 args_photo
               (∅ : gmap string (FileInfo * option float64)) = inr (r, st') ∧
    r_path r = "/uploads/1700000000000-my-photo-1-.png" ∧
    float_gt_Z (a_size args_photo) 10485760 = false ∧
    ∃ r', commitFile env_configured 1700000000000 args_nan
                     (∅ : gmap string (FileInfo * option float64))
            = inr (r', <["/uploads/1700000000000-x.png" :=
                           (mkFileInfo "/uploads/1700000000000-x.png" "blob-2"
                                       "image/png" 0%Z, None)]> ∅) ∧
          r_size r' = FNaN.
Proof.
  pose (r := mkCommitResult "/uploads/1700000000000-my-photo-1-.png"
               "my-photo-1-.png" "image/png" (float_of_Z 10485760)
               (Some (float_of_Z 640)) (Some (float_of_Z 480))).
  pose (st' := <["/uploads/1700000000000-my-photo-1-.png" :=
                   (mkFileInfo "/uploads/1700000000000-my-photo-1-.png" "blob-1"
                               "image/png" 0%Z, None)]>
                 (∅ : gmap string (FileInfo * option float64))).
  assert (commitFile env_configured 1700000000000 args_photo
            (∅ : gmap string (FileInfo * option float64)) = inr (r, st')) as Hrun
    by reflexivity.
  destruct (commitFile_commits env_configured 1700000000000 args_photo ∅ st')
    as [Hinv _].
  destruct (Hinv r Hrun) as (_ & _ & Hsz & _).
  exists r, st'. split; [exact Hrun|]. split; [reflexivity|]. split; [exact Hsz|].
  destruct (commitFile_commits env_configured 1700000000000 args_nan ∅
              (<["/uploads/1700000000000-x.png" :=
                   (mkFileInfo "/uploads/1700000000000-x.png" "blob-2"
                               "image/png" 0%Z, None)]> ∅)) as [_ Hret].
  apply Hret; [reflexivity | | reflexivity | right; left; reflexivity].
  unfold ALLOWED_TYPES. apply list_elem_of_here.
Defined.

Lemma commitFile_passes_handleUpload_check_witness :
  ∃ r st',
    commitFile env_configured 1700000000000 args_photo
               (∅ : gmap string (FileInfo * option float64)) = inr (r, st') ∧
    handleUpload_check "image/png" (float_of_Z 10485760) = None.
Proof.
  pose (r := mkCommitResult "/uploads/1700000000000-my-photo-1-.png"
               "my-photo-1-.png" "image/png" (float_of_Z 10485760)
               (Some (float_of_Z 640)) (Some (float_of_Z 480))).
  pose (st' := <["/uploads/1700000000000-my-photo-1-.png" :=
                   (mkFileInfo "/uploads/1700000000000-my-photo-1-.png" "blob-1"
                               "image/png" 0%Z, None)]>
                 (∅ : gmap string (FileInfo * option float64))).
  assert (commitFile env_configured 1700000000000 args_photo
            (∅ : gmap string (FileInfo * option float64)) = inr (r, st')) as Hrun
    by reflexivity.
  exists r, st'. split; [exact Hrun|].
  exact (proj1 (commitFile_passes_handleUpload_check env_configured 1700000000000
                  args_photo ∅ st' r Hrun)).
Defined.

Lemma deleteFiles_counts_requests_witness :
  isBunnyConfigured env_configured = true ∧
  deleteFiles env_configured [] store_logo = inr (true, 0, store_logo) ∧
  ∃ st', deleteFiles env_configured ["/uploads/1-logo.png"; "/uploads/none.png"]
                     store_logo = inr (true, 2, st') ∧
         deleteFiles env_configured ["/uploads/1-logo.png"] store_logo
           = inr (true, 1, st').
Proof.
  destruct (deleteFiles_counts_requests env_configured ["/uploads/1-logo.png"]
              ["/uploads/none.png"] store_logo) as (_ & Hnil & Happ).
  split; [reflexivity|]. split; [exact (Hnil eq_refl)|].
  pose (st' := delete "/uploads/1-logo.png" store_logo).
  exists (delete "/uploads/none.png" st'). split.
  - apply (proj2 (Happ _)). exists st'. split; reflexivity.
  - reflexivity.
Defined.

Lemma setFileExpiration_zero_clears_witness :
  isBunnyConfigured env_configured = true ∧
  fs_stat "/uploads/none.png" store_logo = None ∧
  setFileExpiration env_configured 5000 "/uploads/none.png"
    (Some (float_of_Z 60000)) store_logo = inl (ErrorMessage "File not found") ∧
  (∃ st', setFileExpiration env_configured 5000 "/uploads/1-logo.png"
            (Some (float_of_Z 0)) store_logo = inr (true, None, st') ∧
          setFileExpiration env_configured 5000 "/uploads/1-logo.png"
            (Some FNaN) store_logo = inr (true, None, st') ∧
          setFileExpiration env_configured 5000 "/uploads/1-logo.png" None
            store_logo = inr (true, None, st')) ∧
  fs_stat "/uploads/1-logo.png" store_logo = Some file_logo ∧
  60000%Z ≠ 0%Z ∧ (Z.abs (5000 + 60000) < 2 ^ 53)%Z ∧
  setFileExpiration env_configured 5000 "/uploads/1-logo.png"
    (Some (float_of_Z 60000)) store_logo =
    inr (true, Some (float_of_Z 65000),
         <["/uploads/1-logo.png" := (file_logo, Some (float_of_Z 65000))]> store_logo) ∧
  js_truthy_number (Some (float_of_Z (2 ^ 53))) = true ∧
  setFileExpiration env_configured 5001 "/uploads/1-logo.png"
    (Some (float_of_Z (2 ^ 53))) store_logo =
    inr (true, Some (FFinite 4503599627372996 1),
         <["/uploads/1-logo.png" := (file_logo, Some (FFinite 4503599627372996 1))]>
           store_logo).
Proof.
  destruct (setFileExpiration_zero_clears env_configured 5000 "/uploads/none.png"
              store_logo) as (_ & _ & _ & _ & _ & Hmissing).
  destruct (setFileExpiration_zero_clears env_configured 5000 "/uploads/1-logo.png"
              store_logo) as (Hzero & Hnan & _ & Hexact & _ & _).
  destruct (setFileExpiration_zero_clears env_configured 5001 "/uploads/1-logo.png"
              store_logo) as (_ & _ & Hset & _ & _ & _).
  split; [reflexivity|]. split; [reflexivity|].
  split; [exact (Hmissing eq_refl eq_refl (Some (float_of_Z 60000)))|].
  split.
  { eexists. split; [|split; [|reflexivity]].
    - unfold float_of_Z. rewrite Hzero. reflexivity.
    - rewrite Hnan. reflexivity. }
  split; [reflexivity|]. split; [discriminate|]. split; [reflexivity|].
  split.
  { apply (Hexact file_logo 60000%Z); [reflexivity | reflexivity | discriminate
                                      | reflexivity | reflexivity]. }
  split; [reflexivity|].
  exact (Hset file_logo (float_of_Z (2 ^ 53)) _ eq_refl eq_refl eq_refl eq_refl).
Defined.

(** ** Dates in the history dialog *)

Lemma formatDate_run (now ts : Z) :
  formatDate now ts =
  let h := ((now - ts) / 3600000)%Z in
  if (h <? 1)%Z then
    Text (pretty ((now - ts) / 60000)%Z +:+ " minute" +:+
          plural_s ((now - ts) / 60000)%Z +:+ " ago")
  else if (h <? 24)%Z then
    Text (pretty h +:+ " hour" +:+ plural_s h +:+ " ago")
  else if (h / 24 <? 3)%Z then
    Text (pretty (h / 24)%Z +:+ " day" +:+ plural_s (h / 24)%Z +:+ " ago")
  else LocaleString ts.
Proof. reflexivity. Qed.

(** [formatDate] by age, for timestamps within 2^40 ms of the clock.
    Under an hour it counts whole minutes, 0 to 59; from an hour to a day
    whole hours, 1 to 23; from one to three days whole days, 1 or 2; from
    three days on it prints the locale date.  A timestamp ahead of the
    clock takes the minutes branch with a negative count. *)
Theorem formatDate_ranges (now ts : Z) :
  (- 1099511627776 < now - ts < 1099511627776)%Z →
  ((0 ≤ now - ts < 3600000)%Z →
     formatDate now ts =
       Text (pretty ((now - ts) / 60000)%Z +:+ " minute" +:+
             plural_s ((now - ts) / 60000)%Z +:+ " ago") ∧
     (0 ≤ (now - ts) / 60000 ≤ 59)%Z) ∧
  ((3600000 ≤ now - ts < 86400000)%Z →
     formatDate now ts =
       Text (pretty ((now - ts) / 3600000)%Z +:+ " hour" +:+
             plural_s ((now - ts) / 3600000)%Z +:+ " ago") ∧
     (1 ≤ (now - ts) / 3600000 ≤ 23)%Z) ∧
  ((86400000 ≤ now - ts < 259200000)%Z →
     formatDate now ts =
       Text (pretty ((now - ts) / 3600000 / 24)%Z +:+ " day" +:+
             plural_s ((now - ts) / 3600000 / 24)%Z +:+ " ago") ∧
     (1 ≤ (now - ts) / 3600000 / 24 ≤ 2)%Z) ∧
  ((259200000 ≤ now - ts)%Z → formatDate now ts = LocaleString ts) ∧
  ((now - ts < 0)%Z →
     formatDate now ts =
       Text (pretty ((now - ts) / 60000)%Z +:+ " minute" +:+
             plural_s ((now - ts) / 60000)%Z +:+ " ago") ∧
     ((now - ts) / 60000 < 0)%Z).
Proof.
  intros _. rewrite formatDate_run. cbv zeta.
  generalize (now - ts)%Z. intros age. repeat split.
  - assert (age / 3600000 < 1)%Z as Hh by (Z.div_mod_to_equations; lia).
    by rewrite (proj2 (Z.ltb_lt _ _) Hh).
  - Z.div_mod_to_equations; lia.
  - Z.div_mod_to_equations; lia.
  - assert (1 ≤ age / 3600000 < 24)%Z as [H1 H2] by (Z.div_mod_to_equations; lia).
    by rewrite (proj2 (Z.ltb_ge _ _) H1), (proj2 (Z.ltb_lt _ _) H2).
  - Z.div_mod_to_equations; lia.
  - Z.div_mod_to_equations; lia.
  - assert (24 ≤ age / 3600000)%Z as H1 by (Z.div_mod_to_equations; lia).
    assert (age / 3600000 / 24 < 3)%Z as H2 by (Z.div_mod_to_equations; lia).
    rewrite (proj2 (Z.ltb_ge _ 1)), (proj2 (Z.ltb_ge _ 24) H1) by lia.
    by rewrite (proj2 (Z.ltb_lt _ _) H2).
  - Z.div_mod_to_equations; lia.
  - Z.div_mod_to_equations; lia.
  - intros Hage.
    assert (24 ≤ age / 3600000)%Z as H1 by (Z.div_mod_to_equations; lia).
    assert (3 ≤ age / 3600000 / 24)%Z as H2 by (Z.div_mod_to_equations; lia).
    rewrite (proj2 (Z.ltb_ge _ 1)), (proj2 (Z.ltb_ge _ 24) H1) by lia.
    by rewrite (proj2 (Z.ltb_ge _ _) H2).
  - assert (age / 3600000 < 1)%Z as Hh by (Z.div_mod_to_equations; lia).
    by rewrite (proj2 (Z.ltb_lt _ _) Hh).
  - Z.div_mod_to_equations; lia.
Qed.

Lemma formatDate_ranges_witness :
  formatDate 1700000000000 1699999940000 = Text "1 minute ago" ∧
  formatDate 1700000000000 1699992800000 = Text "2 hours ago" ∧
  formatDate 1700000000000 1699827200000 = Text "2 days ago" ∧
  formatDate 1700000000000 1699740800000 = LocaleString 1699740800000 ∧
  formatDate 1700000000000 1700000300000 = Text "-5 minutes ago".
Proof.
  destruct (formatDate_ranges 1700000000000 1699999940000 ltac:(lia))
    as ((Hm & _) & _); [lia|].
  destruct (formatDate_ranges 1700000000000 1699992800000 ltac:(lia))
    as (_ & (Hh & _) & _); [lia|].
  destruct (formatDate_ranges 1700000000000 1699827200000 ltac:(lia))
    as (_ & _ & (Hd & _) & _); [lia|].
  destruct (formatDate_ranges 1700000000000 1699740800000 ltac:(lia))
    as (_ & _ & _ & Hl & _).
  destruct (formatDate_ranges 1700000000000 1700000300000 ltac:(lia))
    as (_ & _ & _ & _ & (Hf & _)); [lia|].
  split; [rewrite Hm; reflexivity|]. split; [rewrite Hh; reflexivity|].
  split; [rewrite Hd; reflexivity|]. split; [apply Hl; lia|].
  rewrite Hf. reflexivity.
Defined.

(** The dialog's three-day threshold is the retention window: a snapshot
    gets a relative label exactly when it is younger than [RETENTION_MS],
    so every snapshot a sweep at the same clock reading may delete is
    shown with its full date. *)
Theorem formatDate_retention (now : Z) (v : VersionDoc) :
  (- 1099511627776 < now - createdAt v < 1099511627776)%Z →
  ((∃ s, formatDate now (createdAt v) = Text s) ↔
   (now - createdAt v < RETENTION_MS)%Z) ∧
  (eligible now v = true →
   formatDate now (createdAt v) = LocaleString (createdAt v)).
Proof.
  intros _. change RETENTION_MS with 259200000%Z.
  assert ((259200000 ≤ now - createdAt v)%Z →
          formatDate now (createdAt v) = LocaleString (createdAt v)) as Hold.
  { intros Hage. rewrite formatDate_run. cbv zeta.
    assert (24 ≤ (now - createdAt v) / 3600000)%Z as H1
      by (Z.div_mod_to_equations; lia).
    assert (3 ≤ (now - createdAt v) / 3600000 / 24)%Z as H2
      by (Z.div_mod_to_equations; lia).
    rewrite (proj2 (Z.ltb_ge _ 1)), (proj2 (Z.ltb_ge _ 24) H1) by lia.
    by rewrite (proj2 (Z.ltb_ge _ _) H2). }
  split; [split|].
  - intros [s Hs]. destruct (decide (now - createdAt v < 259200000)%Z); [done|].
    rewrite Hold in Hs by lia. discriminate.
  - intros Hyoung. rewrite formatDate_run. cbv zeta.
    destruct (_ <? 1)%Z; [by eexists|]. destruct (_ <? 24)%Z; [by eexists|].
    assert ((now - createdAt v) / 3600000 / 24 < 3)%Z as H2
      by (Z.div_mod_to_equations; lia).
    rewrite (proj2 (Z.ltb_lt _ _) H2). by eexists.
  - intros He%eligible_spec. apply Hold. lia.
Qed.

Lemma formatDate_retention_witness :
  (- 1099511627776 < 259201150 - createdAt snapshot_1 < 1099511627776)%Z ∧
  eligible 259201150 snapshot_1 = true ∧
  formatDate 259201150 (createdAt snapshot_1) = LocaleString 1000 ∧
  ∃ s, formatDate 259201150 (createdAt snapshot_3) = Text s.
Proof.
  assert (- 1099511627776 < 259201150 - createdAt snapshot_1 < 1099511627776)%Z
    as Hr1 by (cbn; lia).
  assert (- 1099511627776 < 259201150 - createdAt snapshot_3 < 1099511627776)%Z
    as Hr3 by (cbn; lia).
  split; [exact Hr1|]. split; [reflexivity|].
  split; [exact (proj2 (formatDate_retention 259201150 snapshot_1 Hr1) eq_refl)|].
  apply (proj1 (formatDate_retention 259201150 snapshot_3 Hr3)). reflexivity.
Defined.

(** ** Selecting files in the media library *)

(** Toggling a path flips its membership in the selection and nothing
    else, so toggling it twice gives the selection back. *)
Theorem toggleFileSelection_flips (path : string) (prev : gset string) :
  toggleFileSelection path (toggleFileSelection path prev) = prev ∧
  (path ∈ toggleFileSelection path prev ↔ path ∉ prev) ∧
  (∀ other, other ≠ path →
            (other ∈ toggleFileSelection path prev ↔ other ∈ prev)).
Proof.
  assert (∀ x, x ∈ toggleFileSelection path prev ↔
               (x = path ∧ path ∉ prev) ∨ (x ≠ path ∧ x ∈ prev)) as Hmem.
  { intros x. unfold toggleFileSelection. cbv zeta.
    case_bool_decide as Hin.
    - rewrite elem_of_difference, elem_of_singleton.
      destruct (decide (x = path)) as [->|Hne]; intuition.
    - rewrite elem_of_union, elem_of_singleton.
      destruct (decide (x = path)) as [->|Hne]; intuition. }
  split; [|split].
  - apply set_eq. intros x.
    unfold toggleFileSelection at 1. cbv zeta.
    case_bool_decide as Hin; apply Hmem in Hin || rewrite Hmem in Hin.
    + rewrite elem_of_difference, elem_of_singleton, Hmem.
      destruct (decide (x = path)) as [->|Hne]; intuition.
    + rewrite elem_of_union, elem_of_singleton, Hmem.
      destruct (decide (x = path)) as [->|Hne];
        destruct (decide (path ∈ prev)); intuition.
  - rewrite Hmem. intuition.
  - intros other Hne. rewrite Hmem. intuition.
Qed.

Lemma toggleFileSelection_flips_witness :
  toggleFileSelection "/uploads/1-logo.png"
    (toggleFileSelection "/uploads/1-logo.png" {[ "/uploads/2-a.png" ]})
  = {[ "/uploads/2-a.png" ]} ∧
  "/uploads/1-logo.png" ∈
    toggleFileSelection "/uploads/1-logo.png" ({[ "/uploads/2-a.png" ]} : gset string).
Proof.
  destruct (toggleFileSelection_flips "/uploads/1-logo.png" {[ "/uploads/2-a.png" ]})
    as (Htwice & Hflip & _).
  split; [exact Htwice|]. apply Hflip.
  intros Hin%elem_of_singleton. discriminate.
Defined.
